(** * vtdb.keyspace: the SrvKeyspace model and the range-sharding resolver

    A shallow embedding of [py/vtdb/keyspace.py] and the properties of its
    shard resolution, shard naming and error handling.

    Python 2 [str] values are byte strings: they are modelled by [string]
    (a list of 8-bit [ascii] characters), compared the way Python compares
    them (byte by byte, unsigned, a proper prefix being smaller). Python
    exceptions are modelled by an error monad [result]. *)

From Stdlib Require Import ZArith NArith Lia List Bool Ascii String.
From stdpp Require Import base option list strings gmap pretty.

(** ** Exceptions and the error monad *)

(** The exception classes that the module can meet. [OperationalError] is
    [dbexceptions.OperationalError]; [OperationalErrorSub] stands for any
    class derived from it, [ExceptionSub] for any other class derived from
    [Exception], [BaseExceptionSub] for the classes outside [Exception]
    ([KeyboardInterrupt], [SystemExit], ...). *)
Inductive exn_class :=
| KeyError
| IndexError
| TypeError
| UnboundLocalError
| ValueError
| struct_error
| OperationalError
| OperationalErrorSub (cls : string)
| ExceptionSub (cls : string)
| BaseExceptionSub (cls : string).

(** An exception instance: its class and its [args] tuple. *)
Inductive exn :=
| Exn (cls : exn_class) (args : list exn_arg)
with exn_arg :=
| ArgStr (s : string)
| ArgExn (e : exn).

Definition exn_cls (e : exn) : exn_class :=
  match e with Exn c _ => c end.

Definition exn_args (e : exn) : list exn_arg :=
  match e with Exn _ a => a end.

(** [isinstance(e, dbexceptions.OperationalError)] *)
Definition isinstance_OperationalError (e : exn) : bool :=
  match exn_cls e with
  | OperationalError | OperationalErrorSub _ => true
  | _ => false
  end.

(** [isinstance(e, Exception)] *)
Definition isinstance_Exception (e : exn) : bool :=
  match exn_cls e with
  | BaseExceptionSub _ => false
  | _ => true
  end.

Inductive result (A : Type) :=
| Ok (a : A)
| Raise (e : exn).
Arguments Ok {A} a.
Arguments Raise {A} e.

#[global] Instance result_ret : MRet result := fun A a => Ok a.
#[global] Instance result_bind : MBind result := fun A B f m =>
  match m with
  | Ok a => f a
  | Raise e => Raise e
  end.

(** [d[key]] on a dict whose entry for [key] is [field]. *)
Definition dict_getitem {A} (key : string) (field : option A) : result A :=
  match field with
  | Some a => Ok a
  | None => Raise (Exn KeyError [ArgStr key])
  end.

(** [d.get(key, dflt)] *)
Definition dict_get {A} (field : option A) (dflt : A) : A :=
  match field with
  | Some a => a
  | None => dflt
  end.

(** [l[i]] for a non-negative index. *)
Definition list_getitem {A} (l : list A) (i : nat) : result A :=
  match l !! i with
  | Some a => Ok a
  | None => Raise (Exn IndexError [ArgStr "list index out of range"])
  end.

(** [enumerate(l)] *)
Fixpoint enumerate_from {A} (n : nat) (l : list A) : list (nat * A) :=
  match l with
  | [] => []
  | x :: l' => (n, x) :: enumerate_from (S n) l'
  end.

Definition enumerate {A} (l : list A) : list (nat * A) := enumerate_from 0 l.

(** Iterating over an attribute that may still be [None]. *)
Definition iter {A} (o : option (list A)) : result (list A) :=
  match o with
  | Some l => Ok l
  | None => Raise (Exn TypeError [ArgStr "'NoneType' object is not iterable"])
  end.

(** ** Python 2 byte strings *)

Definition ord (c : ascii) : N := N_of_ascii c.
Definition chr (n : N) : ascii := ascii_of_N n.

(** [a < b] on [str]: the first differing byte decides; a proper prefix is
    smaller. *)
Fixpoint str_ltb (a b : string) : bool :=
  match a, b with
  | _, EmptyString => false
  | EmptyString, String _ _ => true
  | String x a', String y b' =>
      if (ord x <? ord y)%N then true
      else if (ord x =? ord y)%N then str_ltb a' b'
      else false
  end.

Definition str_lt (a b : string) : Prop := str_ltb a b = true.

Definition hex_digit (n : N) : ascii :=
  match String.get (N.to_nat n) "0123456789abcdef" with
  | Some c => c
  | None => "0"%char
  end.

(** [s.encode('hex')]: two lower-case hexadecimal digits per byte. *)
Fixpoint encode_hex (s : string) : string :=
  match s with
  | EmptyString => EmptyString
  | String c s' =>
      String (hex_digit (ord c / 16)) (String (hex_digit (ord c mod 16)) (encode_hex s'))
  end.

Definition upper_char (c : ascii) : ascii :=
  if ((97 <=? ord c) && (ord c <=? 122))%N then chr (ord c - 32) else c.

(** [s.upper()] *)
Fixpoint upper (s : string) : string :=
  match s with
  | EmptyString => EmptyString
  | String c s' => String (upper_char c) (upper s')
  end.

(** ['%s-%s' % (a, b)] *)
Definition format_range (a b : string) : string := a +:+ "-" +:+ b.

(** [str(x)] for a non-negative integer. *)
Definition str_of_nat (x : nat) : string := pretty x.

(** ** [struct.Struct('!Q').pack] *)

(** The [n] low bytes of [k], most significant first. *)
Fixpoint be_bytes (n : nat) (k : Z) : string :=
  match n with
  | O => EmptyString
  | S n' =>
      String (chr (Z.to_N (Z.land (Z.shiftr k (8 * Z.of_nat n')) 255))) (be_bytes n' k)
  end.

(** Format [!Q]: an unsigned 64-bit integer as 8 bytes in network (big-endian)
    order; a value outside the range is refused. *)
Definition pack_keyspace_id (keyspace_id : Z) : result string :=
  if ((0 <=? keyspace_id) && (keyspace_id <? 2 ^ 64))%Z
  then Ok (be_bytes 8 keyspace_id)
  else Raise (Exn struct_error [ArgStr "integer out of range for 'Q' format code"]).

(** ** [keyrange_constants] *)

(** The constants of [vtdb.keyrange_constants] that the module reads. The
    module is not part of the sources at hand; its constants are parameters
    of the development. *)
Record keyrange_constants := {
  MIN_KEY : string;
  MAX_KEY : string;
  SHARD_ZERO : string;
  KIT_UNSET : string
}.

(** Modelled from the spec: the constants of [keyrange_constants], which is
    missing from the sources, with eight-byte sentinels: the maximum-key
    sentinel is the all-0xFF marker, the zero-shard label is "0", and the
    minimum-key sentinel is taken all-zero, the value under which the names
    of section 8 of the specification come out. The examples below use this
    instance; no theorem that is stated for all constants depends on it. *)
Definition spec_keyrange_constants : keyrange_constants := {|
  MIN_KEY := be_bytes 8 0;
  MAX_KEY := be_bytes 8 (2 ^ 64 - 1);
  SHARD_ZERO := "0";
  KIT_UNSET := ""
|}.

(** Modelled from the spec: the constants of [keyrange_constants], which is
    missing from the sources, with the minimum-key sentinel as section 4.2 of
    the specification words it, "the empty-prefix marker": the empty byte
    string. The maximum-key sentinel is the all-0xFF marker, eight bytes, and
    the zero-shard label is "0". *)
Definition empty_prefix_keyrange_constants : keyrange_constants := {|
  MIN_KEY := "";
  MAX_KEY := be_bytes 8 (2 ^ 64 - 1);
  SHARD_ZERO := "0";
  KIT_UNSET := ""
|}.

(** ** The topology snapshot *)

Record KeyRange := {
  KeyRange_Start : string;
  KeyRange_End : string
}.

(** A shard descriptor [{'KeyRange': {'Start': ..., 'End': ...}}], with its
    keys present. A shard dict that lacks ['KeyRange'] or ['End'], on which
    the code raises [KeyError], is outside this type. *)
Record SrvShard := {
  Shard_KeyRange : KeyRange
}.

(** [shard['KeyRange']['End']] *)
Definition shard_end (shard : SrvShard) : string :=
  KeyRange_End (Shard_KeyRange shard).

(** A partition dict; its ['Shards'] entry may be missing. *)
Record SrvKeyspacePartition := {
  Partition_Shards : option (list SrvShard)
}.

(** The [data] dict of a SrvKeyspace: one field per key that the module
    reads ([None] when the key is missing) and the names of the other keys. *)
Record SrvKeyspace := {
  TabletTypes : option (list string);
  Partitions : option (gmap string SrvKeyspacePartition);
  ShardingColumnName : option string;
  ShardingColumnType : option string;
  ServedFrom : option (gmap string string);
  Shards : option (list SrvShard);
  other_keys : list string
}.

(** [len(data) == 0] *)
Definition dict_is_empty (data : SrvKeyspace) : bool :=
  match TabletTypes data, Partitions data, ShardingColumnName data,
        ShardingColumnType data, ServedFrom data, Shards data, other_keys data with
  | None, None, None, None, None, None, [] => true
  | _, _, _, _, _, _, _ => false
  end.

(** [not data] for what the topology client returns: [None] or a dict. *)
Definition not_data (data : option SrvKeyspace) : bool :=
  match data with
  | None => true
  | Some d => dict_is_empty d
  end.

(** ** class Keyspace *)

Record Keyspace := {
  name : string;
  db_types : list string;
  partitions : gmap string SrvKeyspacePartition;
  sharding_col_name : string;
  sharding_col_type : string;
  served_from : option (gmap string string);
  shard_count : nat;
  shard_max_keys : option (list string);
  shard_names : list string
}.

Definition set_shard_names (self : Keyspace) (names : list string) : Keyspace :=
  {| name := name self;
     db_types := db_types self;
     partitions := partitions self;
     sharding_col_name := sharding_col_name self;
     sharding_col_type := sharding_col_type self;
     served_from := served_from self;
     shard_count := shard_count self;
     shard_max_keys := shard_max_keys self;
     shard_names := names |}.

Section Methods.

Variable K : keyrange_constants.

(** The loop shared by [_make_shard_names] and [get_shard_names]:
    [for i, max_key in enumerate(self.shard_max_keys)], where [smk] is
    [self.shard_max_keys], [el] what is left of the enumeration and [names]
    the list built so far. *)
Fixpoint names_loop (smk : list string) (el : list (nat * string))
    (names : list string) : result (list string) :=
  match el with
  | [] => Ok names
  | (i, max_key) :: el' =>
      min_key ← (if (0 <? i)%nat then list_getitem smk (i - 1) else Ok (MIN_KEY K));
      let shard_name :=
        format_range (upper (encode_hex min_key)) (upper (encode_hex max_key)) in
      names_loop smk el' (names ++ [shard_name])
  end.

(** [Keyspace._make_shard_names]: an absent or empty [shard_max_keys] is
    falsy and gives the flat names [str(0) .. str(shard_count - 1)]. *)
Definition _make_shard_names (self : Keyspace) : result (list string) :=
  match shard_max_keys self with
  | Some (m :: ms) => names_loop (m :: ms) (enumerate (m :: ms)) []
  | Some [] | None => Ok (map str_of_nat (seq 0 (shard_count self)))
  end.

(** [Keyspace.__init__(self, name, data)] *)
Definition Keyspace_init (keyspace_name : string) (data : SrvKeyspace) : result Keyspace :=
  tablet_types ← dict_getitem "TabletTypes" (TabletTypes data);
  shards ← dict_getitem "Shards" (Shards data);
  let count := length shards in
  range_sharded ←
    (if (1 <? count)%nat
     then shard0 ← list_getitem shards 0;
          Ok (negb (String.eqb (shard_end shard0) ""))
     else Ok false);
  let self :=
    {| name := keyspace_name;
       db_types := tablet_types;
       partitions := dict_get (Partitions data) ∅;
       sharding_col_name := dict_get (ShardingColumnName data) "";
       sharding_col_type := dict_get (ShardingColumnType data) (KIT_UNSET K);
       served_from := ServedFrom data;
       shard_count := count;
       shard_max_keys := if range_sharded : bool then Some (map shard_end shards) else None;
       shard_names := [] |} in
  names ← _make_shard_names self;
  Ok (set_shard_names self names).

(** [Keyspace.get_shards]: either missing key raises [KeyError], which the
    method turns into the empty list. *)
Definition get_shards (self : Keyspace) (db_type : string) : list SrvShard :=
  match partitions self !! db_type with
  | Some partition =>
      match Partition_Shards partition with
      | Some shards => shards
      | None => []
      end
  | None => []
  end.


Definition get_shard_max_keys (self : Keyspace) (db_type : string) : list string :=
  map shard_end (get_shards self db_type).

(** [Keyspace.get_shard_names]: the single-shard test reads the partition's
    max keys, the loop reads [self.shard_max_keys]. *)
Definition get_shard_names (self : Keyspace) (db_type : string) : result (list string) :=
  let names := [] in
  let shard_max_keys_local := get_shard_max_keys self db_type in
  if (length shard_max_keys_local =? 1)%nat
     && bool_decide (shard_max_keys_local !! 0%nat = Some (MAX_KEY K))
  then Ok [SHARD_ZERO K]
  else
    smk ← iter (shard_max_keys self);
    names_loop smk (enumerate smk) names.

(** The scan [for shard_index, shard_max in enumerate(...): if pkid <
    shard_max: break]. [shard_index] is the loop variable: unbound ([None])
    before the first iteration, and kept after the loop. *)
Fixpoint scan (pkid : string) (el : list (nat * string)) (shard_index : option nat)
    : option nat :=
  match el with
  | [] => shard_index
  | (i, shard_max) :: el' =>
      if str_ltb pkid shard_max then Some i else scan pkid el' (Some i)
  end.

(** [return shard_index] *)
Definition return_shard_index (shard_index : option nat) : result nat :=
  match shard_index with
  | Some i => Ok i
  | None =>
      Raise (Exn UnboundLocalError
               [ArgStr "local variable 'shard_index' referenced before assignment"])
  end.

Definition not_range_sharded (self : Keyspace) : exn :=
  Exn ValueError [ArgStr "Keyspace is not range sharded"; ArgStr (name self)].

(** [Keyspace.keyspace_id_to_shard_index_for_db_type] *)
Definition keyspace_id_to_shard_index_for_db_type (self : Keyspace)
    (keyspace_id : Z) (db_type : string) : result nat :=
  pkid ← pack_keyspace_id keyspace_id;
  let shard_max_keys_local := get_shard_max_keys self db_type in
  match shard_max_keys_local with
  | [] => Raise (not_range_sharded self)
  | _ :: _ => return_shard_index (scan pkid (enumerate shard_max_keys_local) None)
  end.

(** [Keyspace.keyspace_id_to_shard_index] *)
Definition keyspace_id_to_shard_index (self : Keyspace) (keyspace_id : Z) : result nat :=
  pkid ← pack_keyspace_id keyspace_id;
  match shard_max_keys self with
  | None | Some [] => Raise (not_range_sharded self)
  | Some (m :: ms) => return_shard_index (scan pkid (enumerate (m :: ms)) None)
  end.

(** ** [read_keyspace] *)

Definition invalid_empty_keyspace (keyspace_name : string) : exn :=
  Exn OperationalError [ArgStr "invalid empty keyspace"; ArgStr keyspace_name].

Definition invalid_keyspace (keyspace_name : string) (cause : exn) : exn :=
  Exn OperationalError [ArgStr "invalid keyspace"; ArgStr keyspace_name; ArgExn cause].

(** The topology client: [get_srv_keyspace(cell, keyspace_name)] returns
    [None] or a dict, or raises. *)
Definition topo_client_t : Type := string → string → result (option SrvKeyspace).

(** The body of the [try] block. *)
Definition read_keyspace_try (topo_client : topo_client_t) (keyspace_name : string)
    : result Keyspace :=
  data ← topo_client "local" keyspace_name;
  match data with
  | Some d =>
      if dict_is_empty d then Raise (invalid_empty_keyspace keyspace_name)
      else Keyspace_init keyspace_name d
  | None => Raise (invalid_empty_keyspace keyspace_name)
  end.

(** [read_keyspace]: the first handler re-raises an [OperationalError], the
    second wraps any other [Exception]; what is no [Exception] escapes both. *)
Definition read_keyspace (topo_client : topo_client_t) (keyspace_name : string)
    : result Keyspace :=
  match read_keyspace_try topo_client keyspace_name with
  | Ok keyspace => Ok keyspace
  | Raise e =>
      if isinstance_OperationalError e then Raise e
      else if isinstance_Exception e then Raise (invalid_keyspace keyspace_name e)
      else Raise e
  end.

End Methods.

(** ** Predicates of the statements *)

(** [shard_max_keys] is strictly ascending in the byte order. *)
Fixpoint strictly_ascending (l : list string) : bool :=
  match l with
  | [] => true
  | a :: l' =>
      match l' with
      | [] => true
      | b :: _ => str_ltb a b && strictly_ascending l'
      end
  end.

(** [data['Shards'][0]['KeyRange']['End'] != ""], the test of [__init__]. *)
Definition first_end_nonempty (shards : list SrvShard) : bool :=
  match shards !! 0 with
  | Some shard0 => negb (String.eqb (shard_end shard0) "")
  | None => false
  end.

(** The same test on the last shard of the list. *)
Definition last_end_nonempty (shards : list SrvShard) : bool :=
  match last shards with
  | Some shard => negb (String.eqb (shard_end shard) "")
  | None => false
  end.

(** ** The name derivation as the specification words it

    Section 4.2 of the specification: from upper bounds [B[0..n-1]], shard
    [i] is named by the upper-case hexadecimal form of its lower bound
    ([B[i-1]], or the minimum-key sentinel for [i = 0]), a hyphen, and that of
    [B[i]]; a single shard bounded by the maximum-key sentinel gets the
    zero-shard label. [spec_shardNamesForType] applies it to the bounds of
    the partition of a tablet type. These follow the specification, not the
    code, and serve to compare [get_shard_names] with it. *)
Section SpecNames.

Variable K : keyrange_constants.

Fixpoint spec_range_names (lower : string) (B : list string) : list string :=
  match B with
  | [] => []
  | b :: B' =>
      format_range (upper (encode_hex lower)) (upper (encode_hex b))
        :: spec_range_names b B'
  end.

Definition spec_derive_names (B : list string) : list string :=
  match B with
  | [b] => if bool_decide (b = MAX_KEY K) then [SHARD_ZERO K]
           else spec_range_names (MIN_KEY K) B
  | _ => spec_range_names (MIN_KEY K) B
  end.

Definition spec_shardNamesForType (self : Keyspace) (tabletType : string) : list string :=
  spec_derive_names (get_shard_max_keys self tabletType).

End SpecNames.

(** ** Snapshots used as examples *)

(** Consecutive shards: each one starts where the previous one ends. *)
Fixpoint shards_from (start : string) (ends : list string) : list SrvShard :=
  match ends with
  | [] => []
  | e :: ends' =>
      {| Shard_KeyRange := {| KeyRange_Start := start; KeyRange_End := e |} |}
        :: shards_from e ends'
  end.

Definition snapshot (ends : list string)
    (parts : gmap string SrvKeyspacePartition) : SrvKeyspace :=
  {| TabletTypes := Some ["master"; "replica"; "rdonly"];
     Partitions := Some parts;
     ShardingColumnName := Some "keyspace_id";
     ShardingColumnType := Some "uint64";
     ServedFrom := None;
     Shards := Some (shards_from "" ends);
     other_keys := [] |}.

Definition partition_of (ends : list string) : SrvKeyspacePartition :=
  {| Partition_Shards := Some (shards_from "" ends) |}.

(** The bound 0x8000000000000000 and the quarter bounds, packed. *)
Definition key_40 : string := be_bytes 8 (2 ^ 62).
Definition key_80 : string := be_bytes 8 (2 ^ 63).
Definition key_c0 : string := be_bytes 8 (2 ^ 63 + 2 ^ 62).
Definition key_ff : string := be_bytes 8 (2 ^ 64 - 1).

(** Two top-level shards split at 0x80..., served as such to every type. *)
Definition snapshot_two : SrvKeyspace :=
  snapshot [key_80; key_ff]
    {[ "master" := partition_of [key_80; key_ff];
       "replica" := partition_of [key_80; key_ff] ]}.

(** Two top-level shards, while the master partition is already split in
    four. *)
Definition snapshot_resharding : SrvKeyspace :=
  snapshot [key_80; key_ff]
    {[ "master" := partition_of [key_40; key_80; key_c0; key_ff];
       "replica" := partition_of [key_80; key_ff] ]}.

(** Two top-level shards, the last one unbounded (empty upper bound). *)
Definition snapshot_open_end : SrvKeyspace :=
  snapshot [key_80; ""] {[ "master" := partition_of [key_80; ""] ]}.

(** Two top-level shards, only the last one with an upper bound. *)
Definition snapshot_first_empty : SrvKeyspace :=
  snapshot [""; key_ff] {[ "master" := partition_of [""; key_ff] ]}.

(** One top-level shard over the whole key range. *)
Definition snapshot_unsharded : SrvKeyspace :=
  snapshot [key_ff] {[ "master" := partition_of [key_ff] ]}.

(** A partition whose shards carry no bounds at all. *)
Definition snapshot_no_bounds : SrvKeyspace :=
  snapshot [""; ""; ""] {[ "replica" := partition_of [""; ""; ""] ]}.

(** The Keyspace objects that [__init__] builds from these snapshots (see
    [Keyspace_init_examples]). *)
Definition keyspace_of (parts : gmap string SrvKeyspacePartition) (count : nat)
    (max_keys : option (list string)) (names : list string) : Keyspace :=
  {| name := "test_keyspace";
     db_types := ["master"; "replica"; "rdonly"];
     partitions := parts;
     sharding_col_name := "keyspace_id";
     sharding_col_type := "uint64";
     served_from := None;
     shard_count := count;
     shard_max_keys := max_keys;
     shard_names := names |}.

Definition names_two : list string :=
  ["0000000000000000-8000000000000000"; "8000000000000000-FFFFFFFFFFFFFFFF"].

Definition keyspace_two : Keyspace :=
  keyspace_of (dict_get (Partitions snapshot_two) ∅) 2
    (Some [key_80; key_ff]) names_two.

Definition keyspace_resharding : Keyspace :=
  keyspace_of (dict_get (Partitions snapshot_resharding) ∅) 2
    (Some [key_80; key_ff]) names_two.

Definition keyspace_open_end : Keyspace :=
  keyspace_of (dict_get (Partitions snapshot_open_end) ∅) 2
    (Some [key_80; ""]) ["0000000000000000-8000000000000000"; "8000000000000000-"].

Definition keyspace_first_empty : Keyspace :=
  keyspace_of (dict_get (Partitions snapshot_first_empty) ∅) 2 None ["0"; "1"].

Definition keyspace_unsharded : Keyspace :=
  keyspace_of (dict_get (Partitions snapshot_unsharded) ∅) 1 None ["0"].

Definition keyspace_no_bounds : Keyspace :=
  keyspace_of (dict_get (Partitions snapshot_no_bounds) ∅) 3 None ["0"; "1"; "2"].

(** What [__init__] builds from [snapshot_two] when the minimum-key
    sentinel is the empty string. *)
Definition keyspace_two_empty_prefix : Keyspace :=
  keyspace_of (dict_get (Partitions snapshot_two) ∅) 2
    (Some [key_80; key_ff]) ["-8000000000000000"; "8000000000000000-FFFFFFFFFFFFFFFF"].

(** A snapshot that lacks the key ['TabletTypes']. *)
Definition snapshot_no_tablet_types : SrvKeyspace :=
  {| TabletTypes := None;
     Partitions := None;
     ShardingColumnName := None;
     ShardingColumnType := None;
     ServedFrom := None;
     Shards := Some (shards_from "" [key_80; key_ff]);
     other_keys := [] |}.

(** Topology clients. *)
Definition topo_returning (data : option SrvKeyspace) : topo_client_t :=
  fun _ _ => Ok data.

Definition topo_raising (e : exn) : topo_client_t :=
  fun _ _ => Raise e.

Definition empty_dict : SrvKeyspace :=
  {| TabletTypes := None; Partitions := None; ShardingColumnName := None;
     ShardingColumnType := None; ServedFrom := None; Shards := None;
     other_keys := [] |}.

(** A failure of the topology client that is an [OperationalError] already. *)
Definition topo_timeout : exn :=
  Exn OperationalError [ArgStr "zkocc timeout"].

(** A failure of the topology client that is not one. *)
Definition topo_io_error : exn :=
  Exn (ExceptionSub "IOError") [ArgStr "connection refused"].

(** * Properties *)

(** ** The order on byte strings *)

Lemma ord_inj (x y : ascii) : ord x = ord y → x = y.
Proof.
  unfold ord. intros H.
  rewrite <- (ascii_N_embedding x), <- (ascii_N_embedding y). by rewrite H.
Qed.

Lemma ord_chr (n : N) : (n < 256)%N → ord (chr n) = n.
Proof. apply N_ascii_embedding. Qed.

Lemma str_ltb_cons (x y : ascii) (a b : string) :
  str_ltb (String x a) (String y b) = true ↔
  (ord x < ord y)%N ∨ (x = y ∧ str_ltb a b = true).
Proof.
  simpl. destruct (N.ltb_spec (ord x) (ord y)) as [Hlt | Hge].
  - split; [by left | done].
  - destruct (N.eqb_spec (ord x) (ord y)) as [Heq | Hne].
    + split; [intros H; right; split; [by apply ord_inj | done] | ].
      intros [H | [_ H]]; [lia | done].
    + split; [done | ]. intros [H | [-> _]]; [lia | done].
Qed.

Lemma str_ltb_irrefl (a : string) : str_ltb a a = false.
Proof.
  induction a as [| x a IH]; [done | ].
  simpl. rewrite N.ltb_irrefl, N.eqb_refl. exact IH.
Qed.

Lemma str_ltb_trans (a b c : string) :
  str_ltb a b = true → str_ltb b c = true → str_ltb a c = true.
Proof.
  revert b c. induction a as [| x a IH]; intros [| y b] [| z c]; try done.
  rewrite !str_ltb_cons.
  intros [Hxy | [-> Hab]] [Hyz | [-> Hbc]].
  - left. lia.
  - by left.
  - by left.
  - right. split; [done | by eapply IH].
Qed.

Lemma str_ltb_asym (a b : string) : str_ltb a b = true → str_ltb b a = false.
Proof.
  intros Hab. destruct (str_ltb b a) eqn:Hba; [ | done].
  pose proof (str_ltb_trans _ _ _ Hab Hba) as H.
  by rewrite str_ltb_irrefl in H.
Qed.

(** The order is total: [a < b] fails exactly when [a >= b]. *)
Lemma str_ltb_false_iff (a b : string) :
  str_ltb a b = false ↔ a = b ∨ str_ltb b a = true.
Proof.
  split.
  - revert b. induction a as [| x a IH]; intros [| y b]; simpl; try done.
    + by left.
    + by right.
    + destruct (N.ltb_spec (ord x) (ord y)) as [Hlt | Hge]; [done | ].
      destruct (N.eqb_spec (ord x) (ord y)) as [Heq | Hne].
      * intros H. apply ord_inj in Heq as ->.
        rewrite N.ltb_irrefl, N.eqb_refl.
        destruct (IH _ H) as [-> | Hlt]; [by left | by right].
      * intros _. right.
        destruct (N.ltb_spec (ord y) (ord x)) as [Hlt | Hge']; [done | lia].
  - intros [-> | H]; [apply str_ltb_irrefl | by apply str_ltb_asym].
Qed.

Lemma str_ltb_empty (a : string) : str_ltb a "" = false.
Proof. by destruct a. Qed.

(** ** The big-endian packing preserves the order *)

Lemma byte_of_shift (k : Z) (n : nat) :
  (0 ≤ k)%Z →
  Z.land (Z.shiftr k (8 * Z.of_nat n)) 255 = ((k / 256 ^ Z.of_nat n) mod 256)%Z.
Proof.
  intros Hk. change 255%Z with (Z.ones 8).
  rewrite Z.land_ones by lia. rewrite Z.shiftr_div_pow2 by lia.
  rewrite Z.pow_mul_r by lia. done.
Qed.

Lemma be_bytes_head_ord (k : Z) (n : nat) :
  (0 ≤ k)%Z →
  ord (chr (Z.to_N (Z.land (Z.shiftr k (8 * Z.of_nat n)) 255))) =
  Z.to_N ((k / 256 ^ Z.of_nat n) mod 256).
Proof.
  intros Hk. rewrite byte_of_shift by done.
  apply ord_chr.
  pose proof (Z.mod_pos_bound (k / 256 ^ Z.of_nat n) 256). lia.
Qed.

Lemma be_bytes_lt (n : nat) (k1 k2 : Z) :
  (0 ≤ k1)%Z → (0 ≤ k2)%Z →
  (k1 mod 256 ^ Z.of_nat n < k2 mod 256 ^ Z.of_nat n)%Z →
  str_ltb (be_bytes n k1) (be_bytes n k2) = true.
Proof.
  intros H1 H2. induction n as [| n IH].
  - simpl. rewrite !Z.mod_1_r. lia.
  - intros Hlt. cbn [be_bytes]. apply str_ltb_cons.
    rewrite !be_bytes_head_ord by done.
    replace (256 ^ Z.of_nat (S n))%Z with (256 ^ Z.of_nat n * 256)%Z in Hlt
      by (rewrite Nat2Z.inj_succ, Z.pow_succ_r by lia; lia).
    assert (0 < 256 ^ Z.of_nat n)%Z as Hpos by (apply Z.pow_pos_nonneg; lia).
    rewrite !Z.rem_mul_r in Hlt by lia.
    set (m := (256 ^ Z.of_nat n)%Z) in *.
    pose proof (Z.mod_pos_bound k1 m Hpos) as Hl1.
    pose proof (Z.mod_pos_bound k2 m Hpos) as Hl2.
    pose proof (Z.mod_pos_bound (k1 / m) 256 eq_refl) as Hh1.
    pose proof (Z.mod_pos_bound (k2 / m) 256 eq_refl) as Hh2.
    destruct (Z.lt_trichotomy ((k1 / m) mod 256) ((k2 / m) mod 256)) as [Hh | [Hh | Hh]].
    + left. lia.
    + right. split.
      * rewrite !byte_of_shift by done. fold m. by rewrite Hh.
      * apply IH. lia.
    + nia.
Qed.

Lemma pack_keyspace_id_ok (k : Z) :
  (0 ≤ k < 2 ^ 64)%Z → pack_keyspace_id k = Ok (be_bytes 8 k).
Proof.
  intros Hk. unfold pack_keyspace_id.
  destruct (Z.leb_spec 0 k); [ | lia].
  destruct (Z.ltb_spec k (2 ^ 64)); [done | lia].
Qed.

Lemma pack_keyspace_id_lt (k1 k2 : Z) :
  (0 ≤ k1)%Z → (k1 < k2)%Z → (k2 < 2 ^ 64)%Z →
  str_ltb (be_bytes 8 k1) (be_bytes 8 k2) = true.
Proof.
  intros H0 H12 H2. apply be_bytes_lt; [lia | lia | ].
  change (256 ^ Z.of_nat 8)%Z with (2 ^ 64)%Z.
  rewrite !Z.mod_small by lia. done.
Qed.

(** ** The scan of the resolver *)

(** A non-empty scan binds [shard_index] to an index of the list. *)
Lemma scan_range (p : string) (l : list string) :
  l ≠ [] → ∀ n acc, ∃ i,
    scan p (enumerate_from n l) acc = Some i ∧ n ≤ i < n + length l.
Proof.
  induction l as [| m l IH]; [done | ]. intros _ n acc. cbn [enumerate_from scan length].
  destruct (str_ltb p m); [exists n; split; [done | lia] | ].
  destruct l as [| m' l'].
  - exists n. split; [done | simpl; lia].
  - destruct (IH ltac:(done) (S n) (Some n)) as (i & Hi & Hr).
    exists i. split; [done | ]. cbn [length] in *. lia.
Qed.

(** When no entry is above the key the loop runs to its end and leaves the
    last index in [shard_index]. *)
Lemma scan_fall_through (p : string) (l : list string) :
  Forall (λ m, str_ltb p m = false) l → l ≠ [] →
  ∀ n acc, scan p (enumerate_from n l) acc = Some (n + length l - 1).
Proof.
  induction l as [| m l IH]; [done | ]. intros Hall _ n acc.
  apply Forall_cons in Hall as [Hm Hall].
  cbn [enumerate_from scan length]. rewrite Hm.
  destruct l as [| m' l'].
  - simpl. f_equal. lia.
  - rewrite (IH Hall ltac:(done) (S n) (Some n)). f_equal. cbn [length]. lia.
Qed.

Lemma scan_lower (p : string) (l : list string) :
  ∀ n x i, x ≤ n → scan p (enumerate_from n l) (Some x) = Some i → x ≤ i.
Proof.
  induction l as [| m l IH]; intros n x i Hx; cbn [enumerate_from scan].
  - intros [= ->]. lia.
  - destruct (str_ltb p m); [intros [= <-]; lia | ].
    intros H. apply (IH (S n) n i) in H; lia.
Qed.

(** A key that is below every bound that a second key is below stops the
    scan no later than the second key does. *)
Lemma scan_mono (p1 p2 : string) (l : list string) :
  (∀ m, str_ltb p2 m = true → str_ltb p1 m = true) →
  ∀ n a1 a2 i1 i2,
    (∀ x1 x2, a1 = Some x1 → a2 = Some x2 → x1 ≤ x2) →
    scan p1 (enumerate_from n l) a1 = Some i1 →
    scan p2 (enumerate_from n l) a2 = Some i2 →
    i1 ≤ i2.
Proof.
  intros Hp. induction l as [| m l IH]; intros n a1 a2 i1 i2 Hacc;
    cbn [enumerate_from scan].
  - intros H1 H2. by apply Hacc.
  - destruct (str_ltb p2 m) eqn:H2m.
    + rewrite (Hp _ H2m). intros [= <-] [= <-]. done.
    + destruct (str_ltb p1 m).
      * intros [= <-] H2. by apply scan_lower in H2; [ | lia].
      * apply IH. intros x1 x2 [= <-] [= <-]. done.
Qed.

Lemma strictly_ascending_tail (a : string) (l : list string) :
  strictly_ascending (a :: l) = true → strictly_ascending l = true.
Proof.
  destruct l as [| b l]; [done | ]. cbn [strictly_ascending].
  intros H. by apply andb_true_iff in H as [_ H].
Qed.

Lemma strictly_ascending_head (l : list string) :
  ∀ a, strictly_ascending (a :: l) = true → Forall (λ b, str_ltb a b = true) l.
Proof.
  induction l as [| b l IH]; intros a H; [constructor | ].
  pose proof (strictly_ascending_tail _ _ H) as Ht.
  cbn [strictly_ascending] in H. apply andb_true_iff in H as [Hab _].
  constructor; [done | ].
  eapply Forall_impl; [apply (IH b Ht) | ].
  intros c Hbc. by eapply str_ltb_trans.
Qed.

(** A key equal to the bound of shard [i] is not below it: the scan passes
    shard [i] and stops at the next bound. *)
Lemma scan_boundary (p : string) (l : list string) :
  strictly_ascending l = true →
  ∀ i n acc, l !! i = Some p → S i < length l →
    scan p (enumerate_from n l) acc = Some (n + S i).
Proof.
  induction l as [| a l IH]; [done | ]. intros Hasc i n acc Hi Hlen.
  pose proof (strictly_ascending_head _ _ Hasc) as Hhead.
  pose proof (strictly_ascending_tail _ _ Hasc) as Htail.
  cbn [enumerate_from scan]. destruct i as [| i].
  - injection Hi as ->. rewrite str_ltb_irrefl.
    destruct l as [| b l]; [simpl in Hlen; lia | ].
    apply Forall_cons in Hhead as [Hpb _].
    cbn [enumerate_from scan]. rewrite Hpb. f_equal. lia.
  - cbn [lookup list_lookup] in Hi. cbn [length] in Hlen.
    assert (str_ltb a p = true) as Hap.
    { rewrite Forall_forall in Hhead. apply Hhead.
      by eapply list_elem_of_lookup_2. }
    rewrite (str_ltb_asym _ _ Hap).
    rewrite (IH Htail i (S n) (Some n) Hi ltac:(lia)). f_equal. lia.
Qed.

(** ** The constructor *)

Lemma names_loop_ok (K : keyrange_constants) (smk : list string) (l : list string) :
  ∀ n names, n + length l ≤ length smk →
    ∃ names', names_loop K smk (enumerate_from n l) names = Ok names'
              ∧ length names' = length names + length l.
Proof.
  induction l as [| m l IH]; intros n names Hn; cbn [enumerate_from names_loop length] in *.
  - exists names. split; [done | lia].
  - assert (∃ min_key,
      (if (0 <? n)%nat then list_getitem smk (n - 1) else Ok (MIN_KEY K)) = Ok min_key)
      as [min_key ->].
    { destruct (Nat.ltb_spec 0 n) as [Hpos | _]; [ | by eexists].
      unfold list_getitem.
      destruct (lookup_lt_is_Some_2 smk (n - 1) ltac:(lia)) as [x ->]. by eexists. }
    cbn [mbind result_bind].
    edestruct (IH (S n)) as (names' & -> & Hlen); [lia | ].
    exists names'. split; [done | ].
    rewrite Hlen, length_app. simpl. lia.
Qed.

Lemma make_shard_names_ok (K : keyrange_constants) (self : Keyspace) :
  (∀ l, shard_max_keys self = Some l → length l = shard_count self) →
  ∃ names, _make_shard_names K self = Ok names ∧ length names = shard_count self.
Proof.
  intros Hinv. unfold _make_shard_names.
  destruct (shard_max_keys self) as [[| m ms] | ] eqn:Hsmk.
  - eexists. split; [done | ]. by rewrite length_map, length_seq.
  - destruct (names_loop_ok K (m :: ms) (m :: ms) 0 []) as (names & Hn & Hlen); [simpl; lia | ].
    exists names. split; [done | ]. rewrite Hlen. by apply Hinv.
  - eexists. split; [done | ]. by rewrite length_map, length_seq.
Qed.

(** What [__init__] builds before it names the shards. *)
Lemma Keyspace_init_unfold (K : keyrange_constants) (keyspace_name : string)
    (data : SrvKeyspace) (tablet_types : list string) (shards : list SrvShard) :
  TabletTypes data = Some tablet_types →
  Shards data = Some shards →
  ∃ names,
    length names = length shards ∧
    Keyspace_init K keyspace_name data =
      Ok {| name := keyspace_name;
            db_types := tablet_types;
            partitions := dict_get (Partitions data) ∅;
            sharding_col_name := dict_get (ShardingColumnName data) "";
            sharding_col_type := dict_get (ShardingColumnType data) (KIT_UNSET K);
            served_from := ServedFrom data;
            shard_count := length shards;
            shard_max_keys :=
              if (1 <? length shards)%nat && first_end_nonempty shards
              then Some (map shard_end shards) else None;
            shard_names := names |}.
Proof.
  intros Htt Hsh. unfold Keyspace_init. rewrite Htt, Hsh. cbn [dict_getitem mbind result_bind].
  set (trigger := (1 <? length shards)%nat && first_end_nonempty shards).
  assert ((if (1 <? length shards)%nat
           then shard0 ← list_getitem shards 0;
                Ok (negb (String.eqb (shard_end shard0) ""))
           else Ok false) = Ok trigger) as ->.
  { unfold trigger, first_end_nonempty, list_getitem.
    destruct (Nat.ltb_spec 1 (length shards)) as [Hlen | _]; [ | done].
    destruct shards as [| s0 shards']; [simpl in Hlen; lia | done]. }
  cbn [mbind result_bind].
  match goal with |- context [_make_shard_names K ?s] => set (self := s) end.
  destruct (make_shard_names_ok K self) as (names & -> & Hlen).
  { intros l. subst self. cbn [shard_max_keys shard_count].
    destruct trigger; [ | done]. intros [= <-]. by rewrite length_map. }
  exists names. split; [exact Hlen | done].
Qed.

(** [__init__] fails only on a missing required key. *)
Lemma Keyspace_init_cases (K : keyrange_constants) (keyspace_name : string)
    (data : SrvKeyspace) :
  match Keyspace_init K keyspace_name data with
  | Ok _ => is_Some (TabletTypes data) ∧ is_Some (Shards data)
  | Raise e => exn_cls e = KeyError
  end.
Proof.
  destruct (TabletTypes data) as [tts | ] eqn:Htt.
  - destruct (Shards data) as [shards | ] eqn:Hsh.
    + destruct (Keyspace_init_unfold K keyspace_name data _ _ Htt Hsh) as (? & _ & ->).
      split; by eexists.
    + unfold Keyspace_init. by rewrite Htt, Hsh.
  - unfold Keyspace_init. by rewrite Htt.
Qed.

(** ** The resolver *)

Lemma keyspace_id_to_shard_index_scan (self : Keyspace) (l : list string) (k : Z) :
  shard_max_keys self = Some l → l ≠ [] → (0 ≤ k < 2 ^ 64)%Z →
  keyspace_id_to_shard_index self k =
    return_shard_index (scan (be_bytes 8 k) (enumerate l) None).
Proof.
  intros Hl Hne Hk. unfold keyspace_id_to_shard_index.
  rewrite (pack_keyspace_id_ok k Hk), Hl. by destruct l.
Qed.

Lemma keyspace_id_to_shard_index_for_db_type_scan (self : Keyspace) (db_type : string)
    (k : Z) :
  get_shard_max_keys self db_type ≠ [] → (0 ≤ k < 2 ^ 64)%Z →
  keyspace_id_to_shard_index_for_db_type self k db_type =
    return_shard_index
      (scan (be_bytes 8 k) (enumerate (get_shard_max_keys self db_type)) None).
Proof.
  intros Hne Hk. unfold keyspace_id_to_shard_index_for_db_type.
  rewrite (pack_keyspace_id_ok k Hk). cbn [mbind result_bind].
  by destruct (get_shard_max_keys self db_type).
Qed.

(** C3: on a range-sharded Keyspace with [N >= 1] max keys, and for every
    key id in [0, 2^64), [keyspace_id_to_shard_index] returns normally an
    index in [0, N); when the packed key is greater than or equal to every
    max key it returns the last index [N - 1]. *)
Theorem keyspace_id_to_shard_index_total (self : Keyspace) (l : list string) (k : Z) :
  shard_max_keys self = Some l →
  1 ≤ length l →
  (0 ≤ k < 2 ^ 64)%Z →
  ∃ pkid i,
    pack_keyspace_id k = Ok pkid ∧
    keyspace_id_to_shard_index self k = Ok i ∧
    i < length l ∧
    (Forall (λ m, m = pkid ∨ str_lt m pkid) l → i = length l - 1).
Proof.
  intros Hl Hlen Hk.
  assert (l ≠ []) as Hne by (destruct l; [simpl in Hlen; lia | done]).
  rewrite (keyspace_id_to_shard_index_scan self l k Hl Hne Hk).
  destruct (scan_range (be_bytes 8 k) l Hne 0 None) as (i & Hi & Hr).
  exists (be_bytes 8 k), i. unfold enumerate. rewrite Hi.
  split; [by apply pack_keyspace_id_ok | ]. split; [done | ]. split; [lia | ].
  intros Hall.
  assert (Forall (λ m, str_ltb (be_bytes 8 k) m = false) l) as Hall'.
  { eapply Forall_impl; [exact Hall | ]. intros m Hm. apply str_ltb_false_iff.
    destruct Hm as [-> | Hm]; [by left | by right]. }
  rewrite (scan_fall_through _ _ Hall' Hne 0 None) in Hi.
  injection Hi as <-. lia.
Qed.

(** C4: on a constructed range-sharded Keyspace whose max keys are strictly
    ascending, a key id whose packed form equals [shard_max_keys[i]], with
    [i < shard_count - 1], resolves to shard [i + 1]. *)
Theorem keyspace_id_to_shard_index_boundary (K : keyrange_constants)
    (keyspace_name : string) (data : SrvKeyspace) (self : Keyspace)
    (l : list string) (i : nat) (k : Z) :
  Keyspace_init K keyspace_name data = Ok self →
  shard_max_keys self = Some l →
  strictly_ascending l = true →
  i < shard_count self - 1 →
  (0 ≤ k < 2 ^ 64)%Z →
  l !! i = Some (be_bytes 8 k) →
  keyspace_id_to_shard_index self k = Ok (i + 1).
Proof.
  intros Hinit Hl Hasc Hi Hk Hli.
  assert (shard_count self = length l) as Hcount.
  { pose proof (Keyspace_init_cases K keyspace_name data) as Hc.
    rewrite Hinit in Hc. destruct Hc as [[tts Htt] [shards Hsh]].
    destruct (Keyspace_init_unfold K keyspace_name data _ _ Htt Hsh) as (names & _ & Heq).
    rewrite Heq in Hinit. injection Hinit as <-.
    cbn [shard_max_keys shard_count] in *.
    destruct (_ && _); [ | done]. injection Hl as <-. by rewrite length_map. }
  assert (l ≠ []) as Hne by (destruct l; [done | done]).
  rewrite (keyspace_id_to_shard_index_scan self l k Hl Hne Hk).
  unfold enumerate.
  rewrite (scan_boundary _ _ Hasc i 0 None Hli ltac:(lia)).
  simpl. f_equal. lia.
Qed.

(** C5: on a range-sharded Keyspace the resolver is monotone: for key ids
    [k1 < k2] in [0, 2^64), the index of [k1] is at most the index of [k2]. *)
Theorem keyspace_id_to_shard_index_monotone (self : Keyspace) (l : list string)
    (k1 k2 : Z) :
  shard_max_keys self = Some l →
  l ≠ [] →
  (0 ≤ k1)%Z → (k1 < k2)%Z → (k2 < 2 ^ 64)%Z →
  ∃ i1 i2,
    keyspace_id_to_shard_index self k1 = Ok i1 ∧
    keyspace_id_to_shard_index self k2 = Ok i2 ∧
    i1 ≤ i2.
Proof.
  intros Hl Hne H0 H12 H2.
  rewrite (keyspace_id_to_shard_index_scan self l k1 Hl Hne ltac:(lia)).
  rewrite (keyspace_id_to_shard_index_scan self l k2 Hl Hne ltac:(lia)).
  destruct (scan_range (be_bytes 8 k1) l Hne 0 None) as (i1 & Hi1 & _).
  destruct (scan_range (be_bytes 8 k2) l Hne 0 None) as (i2 & Hi2 & _).
  exists i1, i2. unfold enumerate. rewrite Hi1, Hi2.
  split; [done | ]. split; [done | ].
  eapply (scan_mono (be_bytes 8 k1) (be_bytes 8 k2) l); [ | | exact Hi1 | exact Hi2].
  - intros m Hm. eapply str_ltb_trans; [ | exact Hm].
    by apply pack_keyspace_id_lt.
  - done.
Qed.

(** C8: for every key id in [0, 2^64), [keyspace_id_to_shard_index] on a
    Keyspace without [shard_max_keys] raises the not-range-sharded
    [ValueError] that carries the keyspace name, and
    [keyspace_id_to_shard_index_for_db_type] raises the same error for a
    tablet type that is absent from [partitions]. *)
Theorem not_range_sharded_errors (self : Keyspace) (k : Z) :
  (0 ≤ k < 2 ^ 64)%Z →
  (shard_max_keys self = None →
   keyspace_id_to_shard_index self k =
     Raise (Exn ValueError [ArgStr "Keyspace is not range sharded"; ArgStr (name self)]))
  ∧
  (∀ db_type, partitions self !! db_type = None →
   get_shards self db_type = [] ∧
   keyspace_id_to_shard_index_for_db_type self k db_type =
     Raise (Exn ValueError [ArgStr "Keyspace is not range sharded"; ArgStr (name self)])).
Proof.
  intros Hk. split.
  - intros Hnone. unfold keyspace_id_to_shard_index.
    by rewrite (pack_keyspace_id_ok k Hk), Hnone.
  - intros db_type Hnone.
    assert (get_shards self db_type = []) as Hs by (unfold get_shards; by rewrite Hnone).
    split; [done | ].
    unfold keyspace_id_to_shard_index_for_db_type, get_shard_max_keys.
    by rewrite (pack_keyspace_id_ok k Hk), Hs.
Qed.

(** C10: when the partition of a tablet type has a non-empty shard list in
    which every upper bound is the empty string,
    [keyspace_id_to_shard_index_for_db_type] does not fail for any key id in
    [0, 2^64): it returns the last index, the length of the list minus 1. *)
Theorem empty_bounds_resolve_to_last (self : Keyspace) (db_type : string)
    (partition : SrvKeyspacePartition) (shards : list SrvShard) (k : Z) :
  partitions self !! db_type = Some partition →
  Partition_Shards partition = Some shards →
  shards ≠ [] →
  Forall (λ shard, shard_end shard = "") shards →
  (0 ≤ k < 2 ^ 64)%Z →
  keyspace_id_to_shard_index_for_db_type self k db_type = Ok (length shards - 1).
Proof.
  intros Hp Hs Hne Hall Hk.
  assert (get_shards self db_type = shards) as Hget
    by (unfold get_shards; by rewrite Hp, Hs).
  assert (get_shard_max_keys self db_type ≠ []) as Hne'.
  { unfold get_shard_max_keys. rewrite Hget. by destruct shards. }
  rewrite (keyspace_id_to_shard_index_for_db_type_scan self db_type k Hne' Hk).
  unfold enumerate. rewrite scan_fall_through; [ | | done].
  - unfold get_shard_max_keys. rewrite Hget, length_map. done.
  - unfold get_shard_max_keys. rewrite Hget. apply Forall_map.
    eapply Forall_impl; [exact Hall | ]. intros shard ->. apply str_ltb_empty.
Qed.

(** ** The example snapshots *)

Lemma Keyspace_init_examples :
  Keyspace_init spec_keyrange_constants "test_keyspace" snapshot_two = Ok keyspace_two
  ∧ Keyspace_init spec_keyrange_constants "test_keyspace" snapshot_resharding
    = Ok keyspace_resharding
  ∧ Keyspace_init spec_keyrange_constants "test_keyspace" snapshot_open_end
    = Ok keyspace_open_end
  ∧ Keyspace_init spec_keyrange_constants "test_keyspace" snapshot_first_empty
    = Ok keyspace_first_empty
  ∧ Keyspace_init spec_keyrange_constants "test_keyspace" snapshot_unsharded
    = Ok keyspace_unsharded
  ∧ Keyspace_init spec_keyrange_constants "test_keyspace" snapshot_no_bounds
    = Ok keyspace_no_bounds.
Proof. repeat split; vm_compute; reflexivity. Qed.

(** The key 2^64 - 1 on the two-shard keyspace: its packed form equals the
    last max key, the scan falls through and the last index is returned. *)
Lemma keyspace_id_to_shard_index_total_witness :
  ∃ pkid i,
    pack_keyspace_id (2 ^ 64 - 1) = Ok pkid ∧
    keyspace_id_to_shard_index keyspace_two (2 ^ 64 - 1) = Ok i ∧
    i < 2 ∧
    (Forall (λ m, m = pkid ∨ str_lt m pkid) [key_80; key_ff] → i = 1).
Proof.
  apply (keyspace_id_to_shard_index_total keyspace_two [key_80; key_ff] (2 ^ 64 - 1)).
  - reflexivity.
  - simpl. lia.
  - lia.
Defined.

(** The key 0x8000000000000000 is the max key of shard 0 and belongs to
    shard 1. *)
Lemma keyspace_id_to_shard_index_boundary_witness :
  keyspace_id_to_shard_index keyspace_two (2 ^ 63) = Ok (0 + 1).
Proof.
  apply (keyspace_id_to_shard_index_boundary spec_keyrange_constants "test_keyspace"
           snapshot_two keyspace_two [key_80; key_ff] 0 (2 ^ 63)).
  - apply Keyspace_init_examples.
  - reflexivity.
  - vm_compute. reflexivity.
  - simpl. lia.
  - lia.
  - reflexivity.
Defined.

(** The keys 5 and 0x8000000000000000 on the two-shard keyspace. *)
Lemma keyspace_id_to_shard_index_monotone_witness :
  ∃ i1 i2,
    keyspace_id_to_shard_index keyspace_two 5 = Ok i1 ∧
    keyspace_id_to_shard_index keyspace_two (2 ^ 63) = Ok i2 ∧
    i1 ≤ i2.
Proof.
  apply (keyspace_id_to_shard_index_monotone keyspace_two [key_80; key_ff] 5 (2 ^ 63)).
  - reflexivity.
  - discriminate.
  - lia.
  - lia.
  - lia.
Defined.

(** The key 42 on the unsharded keyspace, and for the tablet type "rdonly"
    that it does not serve. *)
Lemma not_range_sharded_errors_witness :
  keyspace_id_to_shard_index keyspace_unsharded 42 =
    Raise (Exn ValueError [ArgStr "Keyspace is not range sharded"; ArgStr "test_keyspace"])
  ∧ keyspace_id_to_shard_index_for_db_type keyspace_unsharded 42 "rdonly" =
    Raise (Exn ValueError [ArgStr "Keyspace is not range sharded"; ArgStr "test_keyspace"]).
Proof.
  destruct (not_range_sharded_errors keyspace_unsharded 42 ltac:(lia)) as [H1 H2].
  split.
  - apply H1. reflexivity.
  - apply (H2 "rdonly"). vm_compute. reflexivity.
Defined.

(** The key 7 on a replica partition of three shards without bounds. *)
Lemma empty_bounds_resolve_to_last_witness :
  keyspace_id_to_shard_index_for_db_type keyspace_no_bounds 7 "replica" = Ok (3 - 1).
Proof.
  apply (empty_bounds_resolve_to_last keyspace_no_bounds "replica"
           (partition_of [""; ""; ""]) (shards_from "" [""; ""; ""]) 7).
  - vm_compute. reflexivity.
  - reflexivity.
  - discriminate.
  - repeat constructor.
  - lia.
Defined.

(** ** Range-sharding detection *)

(** C2 (as amended): for every snapshot that the constructor accepts,
    [shard_max_keys] is the list of every shard's range end, in snapshot
    order, when [shard_count > 1] and the FIRST shard's upper bound is
    non-empty; in every other case it is absent ([None], never an empty
    list). *)
Theorem shard_max_keys_first_trigger (K : keyrange_constants) (keyspace_name : string)
    (data : SrvKeyspace) (self : Keyspace) :
  Keyspace_init K keyspace_name data = Ok self →
  ∃ shards,
    Shards data = Some shards ∧
    shard_count self = length shards ∧
    (1 < shard_count self ∧ first_end_nonempty shards = true →
     shard_max_keys self = Some (map shard_end shards)) ∧
    (¬ (1 < shard_count self ∧ first_end_nonempty shards = true) →
     shard_max_keys self = None).
Proof.
  intros Hinit.
  pose proof (Keyspace_init_cases K keyspace_name data) as Hc.
  rewrite Hinit in Hc. destruct Hc as [[tts Htt] [shards Hsh]].
  destruct (Keyspace_init_unfold K keyspace_name data _ _ Htt Hsh) as (names & _ & Heq).
  rewrite Heq in Hinit. injection Hinit as <-.
  exists shards. cbn [shard_count shard_max_keys].
  split; [done | ]. split; [done | ].
  destruct (Nat.ltb_spec 1 (length shards)) as [Hlen | Hlen]; cbn [andb].
  - destruct (first_end_nonempty shards); split; try done.
    + intros H. exfalso. by apply H.
    + by intros [_ ?].
  - split; [intros [? _]; lia | done].
Qed.

(** The constructor on [snapshot_open_end]. *)
Lemma shard_max_keys_first_trigger_witness :
  ∃ shards,
    Shards snapshot_open_end = Some shards ∧
    shard_count keyspace_open_end = length shards ∧
    (1 < shard_count keyspace_open_end ∧ first_end_nonempty shards = true →
     shard_max_keys keyspace_open_end = Some (map shard_end shards)) ∧
    (¬ (1 < shard_count keyspace_open_end ∧ first_end_nonempty shards = true) →
     shard_max_keys keyspace_open_end = None).
Proof.
  apply (shard_max_keys_first_trigger spec_keyrange_constants "test_keyspace"
           snapshot_open_end keyspace_open_end).
  apply Keyspace_init_examples.
Defined.

(** The snapshot [snapshot_open_end] is accepted and has two shards, the
    last one with an empty upper bound: [shard_max_keys] is populated all the
    same, so "populated iff the last bound is non-empty" fails on it. *)
Lemma shard_max_keys_last_trigger_counterexample :
  Keyspace_init spec_keyrange_constants "test_keyspace" snapshot_open_end
    = Ok keyspace_open_end
  ∧ Shards snapshot_open_end = Some (shards_from "" [key_80; ""])
  ∧ ¬ (shard_max_keys keyspace_open_end
         = Some (map shard_end (shards_from "" [key_80; ""]))
       ↔ 1 < shard_count keyspace_open_end
         ∧ last_end_nonempty (shards_from "" [key_80; ""]) = true).
Proof.
  split; [apply Keyspace_init_examples | ]. split; [reflexivity | ].
  intros [Hpop _]. destruct (Hpop eq_refl) as [_ Hlast]. discriminate Hlast.
Qed.

(** The other direction fails as well: on [snapshot_first_empty] the last
    bound is non-empty and there are two shards, and [shard_max_keys] is
    absent. *)
Lemma shard_max_keys_absent_with_last_bound :
  Keyspace_init spec_keyrange_constants "test_keyspace" snapshot_first_empty
    = Ok keyspace_first_empty
  ∧ last_end_nonempty (shards_from "" [""; key_ff]) = true
  ∧ shard_count keyspace_first_empty = 2
  ∧ shard_max_keys keyspace_first_empty = None.
Proof. split; [apply Keyspace_init_examples | done]. Qed.

(** ** Shard names *)

(** C7: when the partition of a tablet type has exactly one shard and its
    upper bound is the maximum-key sentinel, [get_shard_names] returns the
    one-element list that holds the zero-shard label "0". *)
Theorem single_full_shard_name (K : keyrange_constants) (self : Keyspace)
    (db_type : string) (partition : SrvKeyspacePartition) (shard : SrvShard) :
  SHARD_ZERO K = "0" →
  partitions self !! db_type = Some partition →
  Partition_Shards partition = Some [shard] →
  shard_end shard = MAX_KEY K →
  get_shard_names K self db_type = Ok ["0"].
Proof.
  intros Hzero Hp Hs Hend.
  unfold get_shard_names, get_shard_max_keys, get_shards.
  rewrite Hp, Hs. cbn [map length Nat.eqb andb lookup list_lookup].
  rewrite Hend, bool_decide_eq_true_2 by done. by rewrite Hzero.
Qed.

(** The master partition of the unsharded keyspace. *)
Lemma single_full_shard_name_witness :
  get_shard_names spec_keyrange_constants keyspace_unsharded "master" = Ok ["0"].
Proof.
  apply (single_full_shard_name spec_keyrange_constants keyspace_unsharded "master"
           (partition_of [key_ff])
           {| Shard_KeyRange := {| KeyRange_Start := ""; KeyRange_End := key_ff |} |}).
  - reflexivity.
  - vm_compute. reflexivity.
  - reflexivity.
  - reflexivity.
Defined.

(** ** [get_shard_names] against the derivation of the specification *)

(** The loop names the shards from the list [smk] that it enumerates: with
    [pre] already passed, it appends the range names of the rest, the lower
    bound of the next shard being the last bound passed. *)
Lemma names_loop_spec (K : keyrange_constants) (l : list string) :
  ∀ pre names,
    names_loop K (pre ++ l) (enumerate_from (length pre) l) names =
    Ok (names ++ spec_range_names (default (MIN_KEY K) (last pre)) l).
Proof.
  induction l as [| m l IH]; intros pre names; cbn [enumerate_from names_loop spec_range_names].
  - by rewrite app_nil_r.
  - assert ((if (0 <? length pre)%nat
             then list_getitem (pre ++ m :: l) (length pre - 1)
             else Ok (MIN_KEY K)) = Ok (default (MIN_KEY K) (last pre))) as ->.
    { destruct pre as [| b pre] using rev_ind; [done | ].
      rewrite length_app, last_snoc. cbn [length default].
      destruct (Nat.ltb_spec 0 (length pre + 1)) as [_ | ?]; [ | lia].
      unfold list_getitem. rewrite <- app_assoc.
      rewrite lookup_app_r by lia.
      replace (length pre + 1 - 1 - length pre) with 0 by lia. done. }
    cbn [mbind result_bind].
    replace (pre ++ m :: l) with ((pre ++ [m]) ++ l) by (by rewrite <- app_assoc).
    replace (S (length pre)) with (length (pre ++ [m])) by (rewrite length_app; simpl; lia).
    rewrite IH, last_snoc. cbn [default]. by rewrite <- app_assoc.
Qed.

(** Where the partition of the tablet type has the bounds of the top-level
    shards, [get_shard_names] is the derivation of the specification. *)
Lemma get_shard_names_same_bounds (K : keyrange_constants) (self : Keyspace)
    (db_type : string) :
  shard_max_keys self = Some (get_shard_max_keys self db_type) →
  get_shard_names K self db_type = Ok (spec_shardNamesForType K self db_type).
Proof.
  intros Hsame. unfold get_shard_names, spec_shardNamesForType, spec_derive_names.
  rewrite Hsame. cbn [iter mbind result_bind]. unfold enumerate.
  pose proof (names_loop_spec K (get_shard_max_keys self db_type) [] []) as Hloop.
  cbn [app length last default] in Hloop.
  destruct (get_shard_max_keys self db_type) as [| b [| b' B]] eqn:HB.
  - done.
  - cbn [length Nat.eqb andb lookup list_lookup].
    destruct (decide (b = MAX_KEY K)) as [-> | Hne].
    + by rewrite !bool_decide_eq_true_2.
    + rewrite !bool_decide_eq_false_2 by congruence. exact Hloop.
  - cbn [length Nat.eqb andb]. exact Hloop.
Qed.

(** C1: [get_shard_names] does not name the shards of the partition of the
    tablet type. On a keyspace of two top-level shards whose master
    partition has four, it returns the two names of the top-level bounds,
    where the derivation applied to the partition's own bounds gives four;
    on a keyspace without [shard_max_keys] it raises [TypeError]. *)
Theorem get_shard_names_reads_top_level :
  Keyspace_init spec_keyrange_constants "test_keyspace" snapshot_resharding
    = Ok keyspace_resharding
  ∧ get_shard_max_keys keyspace_resharding "master" = [key_40; key_80; key_c0; key_ff]
  ∧ get_shard_names spec_keyrange_constants keyspace_resharding "master"
    = Ok ["0000000000000000-8000000000000000"; "8000000000000000-FFFFFFFFFFFFFFFF"]
  ∧ spec_shardNamesForType spec_keyrange_constants keyspace_resharding "master"
    = ["0000000000000000-4000000000000000"; "4000000000000000-8000000000000000";
       "8000000000000000-C000000000000000"; "C000000000000000-FFFFFFFFFFFFFFFF"]
  ∧ Keyspace_init spec_keyrange_constants "test_keyspace" snapshot_first_empty
    = Ok keyspace_first_empty
  ∧ get_shard_names spec_keyrange_constants keyspace_first_empty "master"
    = Raise (Exn TypeError [ArgStr "'NoneType' object is not iterable"]).
Proof.
  split; [apply Keyspace_init_examples | ].
  split; [vm_compute; reflexivity | ].
  split; [vm_compute; reflexivity | ].
  split; [vm_compute; reflexivity | ].
  split; [apply Keyspace_init_examples | ].
  vm_compute; reflexivity.
Qed.

(** ** [read_keyspace] *)

(** C9 (as amended): a successful but [None] or empty snapshot gives the
    "invalid empty keyspace" [OperationalError] with the keyspace name,
    unwrapped; a failure of the topology client or of the constructor that
    is an [Exception] but no [OperationalError] is wrapped as "invalid
    keyspace" with the keyspace name and the cause; every
    [OperationalError] of the topology client propagates unchanged. *)
Theorem read_keyspace_outcomes (K : keyrange_constants) (topo_client : topo_client_t)
    (keyspace_name : string) :
  (∀ data, topo_client "local" keyspace_name = Ok data → not_data data = true →
     read_keyspace K topo_client keyspace_name =
       Raise (Exn OperationalError
                [ArgStr "invalid empty keyspace"; ArgStr keyspace_name]))
  ∧ (∀ e, topo_client "local" keyspace_name = Raise e →
       isinstance_OperationalError e = false → isinstance_Exception e = true →
       read_keyspace K topo_client keyspace_name =
         Raise (Exn OperationalError
                  [ArgStr "invalid keyspace"; ArgStr keyspace_name; ArgExn e]))
  ∧ (∀ data e, topo_client "local" keyspace_name = Ok (Some data) →
       dict_is_empty data = false →
       Keyspace_init K keyspace_name data = Raise e →
       read_keyspace K topo_client keyspace_name =
         Raise (Exn OperationalError
                  [ArgStr "invalid keyspace"; ArgStr keyspace_name; ArgExn e]))
  ∧ (∀ e, topo_client "local" keyspace_name = Raise e →
       isinstance_OperationalError e = true →
       read_keyspace K topo_client keyspace_name = Raise e)
  ∧ (∀ data keyspace, topo_client "local" keyspace_name = Ok (Some data) →
       dict_is_empty data = false →
       Keyspace_init K keyspace_name data = Ok keyspace →
       read_keyspace K topo_client keyspace_name = Ok keyspace).
Proof.
  unfold read_keyspace, read_keyspace_try. repeat split.
  - intros data -> Hnot. cbn [mbind result_bind].
    destruct data as [d | ]; [ | done]. cbn [not_data] in Hnot. by rewrite Hnot.
  - intros e -> Hop Hexc. cbn [mbind result_bind]. by rewrite Hop, Hexc.
  - intros data e -> Hne Hinit. cbn [mbind result_bind]. rewrite Hne, Hinit.
    pose proof (Keyspace_init_cases K keyspace_name data) as Hc. rewrite Hinit in Hc.
    unfold isinstance_OperationalError, isinstance_Exception. by rewrite Hc.
  - intros e -> Hop. cbn [mbind result_bind]. by rewrite Hop.
  - intros data keyspace -> Hne Hinit. cbn [mbind result_bind]. by rewrite Hne, Hinit.
Qed.

(** An empty dict, a failing client of either kind, and a good snapshot. *)
Lemma read_keyspace_outcomes_witness :
  read_keyspace spec_keyrange_constants (topo_returning (Some empty_dict)) "test_keyspace"
    = Raise (Exn OperationalError
               [ArgStr "invalid empty keyspace"; ArgStr "test_keyspace"])
  ∧ read_keyspace spec_keyrange_constants (topo_raising topo_io_error) "test_keyspace"
    = Raise (Exn OperationalError
               [ArgStr "invalid keyspace"; ArgStr "test_keyspace"; ArgExn topo_io_error])
  ∧ read_keyspace spec_keyrange_constants (topo_raising topo_timeout) "test_keyspace"
    = Raise topo_timeout
  ∧ read_keyspace spec_keyrange_constants (topo_returning (Some snapshot_two))
      "test_keyspace"
    = Ok keyspace_two.
Proof.
  split; [ | split; [ | split]].
  - destruct (read_keyspace_outcomes spec_keyrange_constants
                (topo_returning (Some empty_dict)) "test_keyspace")
      as (Hempty & _).
    apply (Hempty (Some empty_dict)); reflexivity.
  - destruct (read_keyspace_outcomes spec_keyrange_constants
                (topo_raising topo_io_error) "test_keyspace")
      as (_ & Hwrap & _).
    apply Hwrap; reflexivity.
  - destruct (read_keyspace_outcomes spec_keyrange_constants
                (topo_raising topo_timeout) "test_keyspace")
      as (_ & _ & _ & Hpass & _).
    apply Hpass; reflexivity.
  - destruct (read_keyspace_outcomes spec_keyrange_constants
                (topo_returning (Some snapshot_two)) "test_keyspace")
      as (_ & _ & _ & _ & Hok).
    apply (Hok snapshot_two);
      [reflexivity | reflexivity | apply Keyspace_init_examples].
Defined.

(** A topology client that fails with an [OperationalError] of its own: the
    failure is not the empty-keyspace one, and it comes out as it is, not
    wrapped as "invalid keyspace". *)
Lemma read_keyspace_wraps_every_other_failure_counterexample :
  topo_raising topo_timeout "local" "test_keyspace" = Raise topo_timeout
  ∧ topo_timeout ≠ invalid_empty_keyspace "test_keyspace"
  ∧ read_keyspace spec_keyrange_constants (topo_raising topo_timeout) "test_keyspace"
    = Raise topo_timeout
  ∧ read_keyspace spec_keyrange_constants (topo_raising topo_timeout) "test_keyspace"
    ≠ Raise (invalid_keyspace "test_keyspace" topo_timeout).
Proof. repeat split; try reflexivity; discriminate. Qed.

(** * Further properties of the module *)

(** ** The constructor: acceptance, fields and invariants *)

Lemma make_shard_names_set_shard_names (K : keyrange_constants) (self : Keyspace)
    (names : list string) :
  _make_shard_names K (set_shard_names self names) = _make_shard_names K self.
Proof. reflexivity. Qed.

(** Everything that an accepted snapshot determines of the object. *)
Lemma Keyspace_init_inv (K : keyrange_constants) (keyspace_name : string)
    (data : SrvKeyspace) (self : Keyspace) :
  Keyspace_init K keyspace_name data = Ok self →
  ∃ tablet_types shards,
    TabletTypes data = Some tablet_types ∧
    Shards data = Some shards ∧
    name self = keyspace_name ∧
    db_types self = tablet_types ∧
    partitions self = dict_get (Partitions data) ∅ ∧
    sharding_col_name self = dict_get (ShardingColumnName data) "" ∧
    sharding_col_type self = dict_get (ShardingColumnType data) (KIT_UNSET K) ∧
    served_from self = ServedFrom data ∧
    shard_count self = length shards ∧
    shard_max_keys self =
      (if (1 <? length shards)%nat && first_end_nonempty shards
       then Some (map shard_end shards) else None) ∧
    _make_shard_names K self = Ok (shard_names self).
Proof.
  intros Hinit.
  pose proof (Keyspace_init_cases K keyspace_name data) as Hc.
  rewrite Hinit in Hc. destruct Hc as [[tts Htt] [shards Hsh]].
  exists tts, shards. split; [done | ]. split; [done | ].
  revert Hinit. unfold Keyspace_init. rewrite Htt, Hsh.
  cbn [dict_getitem mbind result_bind].
  set (trigger := (1 <? length shards)%nat && first_end_nonempty shards).
  assert ((if (1 <? length shards)%nat
           then shard0 ← list_getitem shards 0;
                Ok (negb (String.eqb (shard_end shard0) ""))
           else Ok false) = Ok trigger) as ->.
  { unfold trigger, first_end_nonempty, list_getitem.
    destruct (Nat.ltb_spec 1 (length shards)) as [Hlen | _]; [ | done].
    destruct shards as [| s0 shards']; [simpl in Hlen; lia | done]. }
  cbn [mbind result_bind].
  match goal with |- context [_make_shard_names K ?s] => set (self0 := s) end.
  destruct (_make_shard_names K self0) as [names | e] eqn:Hnames; [ | done].
  cbn [mbind result_bind]. intros [= <-].
  rewrite make_shard_names_set_shard_names. by repeat split.
Qed.

(** X1: [__init__] requires the keys ['TabletTypes'] and ['Shards'] of the
    snapshot, in this order: without ['TabletTypes'] it raises
    [KeyError('TabletTypes')], and with it but without ['Shards'] it raises
    [KeyError('Shards')]. With both, on a shard list of well-formed shard
    descriptors (each with its ['KeyRange'] and ['End'], as [SrvShard] has
    them), it returns an object: none of the other top-level keys is needed
    and naming the shards does not fail. *)
Theorem Keyspace_init_required_keys (K : keyrange_constants) (keyspace_name : string)
    (data : SrvKeyspace) :
  match TabletTypes data, Shards data with
  | None, _ =>
      Keyspace_init K keyspace_name data = Raise (Exn KeyError [ArgStr "TabletTypes"])
  | Some _, None =>
      Keyspace_init K keyspace_name data = Raise (Exn KeyError [ArgStr "Shards"])
  | Some _, Some _ => ∃ self, Keyspace_init K keyspace_name data = Ok self
  end.
Proof.
  destruct (TabletTypes data) as [tts | ] eqn:Htt.
  - destruct (Shards data) as [shards | ] eqn:Hsh.
    + destruct (Keyspace_init_unfold K keyspace_name data _ _ Htt Hsh) as (? & _ & ->).
      by eexists.
    + unfold Keyspace_init. by rewrite Htt, Hsh.
  - unfold Keyspace_init. by rewrite Htt.
Qed.

(** X2: an accepted snapshot gives an object that carries the caller's
    name, the snapshot's tablet types and shard count, and for each optional
    key its value or its default: no partitions, an empty sharding column
    name, the unset column type, no [served_from]. *)
Theorem Keyspace_init_fields (K : keyrange_constants) (keyspace_name : string)
    (data : SrvKeyspace) (self : Keyspace) :
  Keyspace_init K keyspace_name data = Ok self →
  name self = keyspace_name ∧
  TabletTypes data = Some (db_types self) ∧
  (length <$> Shards data) = Some (shard_count self) ∧
  partitions self = default ∅ (Partitions data) ∧
  sharding_col_name self = default "" (ShardingColumnName data) ∧
  sharding_col_type self = default (KIT_UNSET K) (ShardingColumnType data) ∧
  served_from self = ServedFrom data.
Proof.
  intros Hinit.
  destruct (Keyspace_init_inv K keyspace_name data self Hinit)
    as (tts & shards & Htt & Hsh & Hn & Hdb & Hp & Hcn & Hct & Hsf & Hcount & _).
  rewrite Htt, Hsh, Hn, Hdb, Hp, Hcn, Hct, Hsf, Hcount.
  repeat split; by destruct data as [? [?|] [?|] [?|] ? ? ?].
Qed.

Lemma Keyspace_init_fields_witness :
  name keyspace_two = "test_keyspace" ∧
  TabletTypes snapshot_two = Some (db_types keyspace_two) ∧
  (length <$> Shards snapshot_two) = Some (shard_count keyspace_two) ∧
  partitions keyspace_two = default ∅ (Partitions snapshot_two) ∧
  sharding_col_name keyspace_two = default "" (ShardingColumnName snapshot_two) ∧
  sharding_col_type keyspace_two
    = default (KIT_UNSET spec_keyrange_constants) (ShardingColumnType snapshot_two) ∧
  served_from keyspace_two = ServedFrom snapshot_two.
Proof.
  apply (Keyspace_init_fields spec_keyrange_constants "test_keyspace" snapshot_two
           keyspace_two).
  apply Keyspace_init_examples.
Defined.

(** X3: every constructed Keyspace has one shard name per top-level shard. *)
Theorem Keyspace_init_shard_names_length (K : keyrange_constants)
    (keyspace_name : string) (data : SrvKeyspace) (self : Keyspace) :
  Keyspace_init K keyspace_name data = Ok self →
  length (shard_names self) = shard_count self.
Proof.
  intros Hinit.
  pose proof (Keyspace_init_cases K keyspace_name data) as Hc.
  rewrite Hinit in Hc. destruct Hc as [[tts Htt] [shards Hsh]].
  destruct (Keyspace_init_unfold K keyspace_name data _ _ Htt Hsh) as (names & Hlen & Heq).
  rewrite Heq in Hinit. injection Hinit as <-. exact Hlen.
Qed.

Lemma Keyspace_init_shard_names_length_witness :
  length (shard_names keyspace_no_bounds) = shard_count keyspace_no_bounds.
Proof.
  apply (Keyspace_init_shard_names_length spec_keyrange_constants "test_keyspace"
           snapshot_no_bounds keyspace_no_bounds).
  apply Keyspace_init_examples.
Defined.

(** X4: when a constructed Keyspace has [shard_max_keys], the list has one
    entry per top-level shard, there are at least two shards, and the first
    entry is not the empty string. *)
Theorem Keyspace_init_max_keys_shape (K : keyrange_constants)
    (keyspace_name : string) (data : SrvKeyspace) (self : Keyspace)
    (l : list string) :
  Keyspace_init K keyspace_name data = Ok self →
  shard_max_keys self = Some l →
  length l = shard_count self ∧
  2 ≤ shard_count self ∧
  ∃ m, l !! 0 = Some m ∧ m ≠ "".
Proof.
  intros Hinit Hl.
  destruct (Keyspace_init_inv K keyspace_name data self Hinit)
    as (tts & shards & _ & _ & _ & _ & _ & _ & _ & _ & Hcount & Hsmk & _).
  rewrite Hsmk in Hl. rewrite Hcount.
  destruct (Nat.ltb_spec 1 (length shards)) as [Hlen | Hlen]; [ | done].
  cbn [andb] in Hl. unfold first_end_nonempty in Hl.
  destruct shards as [| s0 shards']; [done | ]. cbn [lookup list_lookup] in Hl.
  destruct (String.eqb_spec (shard_end s0) "") as [He | Hne]; [done | ].
  injection Hl as <-. cbn [length] in *. rewrite length_map.
  split; [done | ]. split; [lia | ]. by exists (shard_end s0).
Qed.

Lemma Keyspace_init_max_keys_shape_witness :
  length [key_80; ""] = shard_count keyspace_open_end ∧
  2 ≤ shard_count keyspace_open_end ∧
  ∃ m, [key_80; ""] !! 0 = Some m ∧ m ≠ "".
Proof.
  apply (Keyspace_init_max_keys_shape spec_keyrange_constants "test_keyspace"
           snapshot_open_end keyspace_open_end [key_80; ""]).
  - apply Keyspace_init_examples.
  - reflexivity.
Defined.

(** ** Hexadecimal names *)

Lemma upper_hex_digit_table :
  forallb
    (λ a, negb (Ascii.eqb (upper_char (hex_digit (N.of_nat a))) "-")
          && forallb
               (λ b, implb (Ascii.eqb (upper_char (hex_digit (N.of_nat a)))
                                      (upper_char (hex_digit (N.of_nat b))))
                           (a =? b)%nat)
               (seq 0 16))
    (seq 0 16) = true.
Proof. vm_compute. reflexivity. Qed.

Lemma upper_hex_digit_no_dash (n : N) :
  (n < 16)%N → upper_char (hex_digit n) ≠ "-"%char.
Proof.
  intros Hn Heq. pose proof upper_hex_digit_table as Ht.
  rewrite List.forallb_forall in Ht.
  specialize (Ht (N.to_nat n) ltac:(apply List.in_seq; lia)).
  rewrite N2Nat.id in Ht. apply andb_true_iff in Ht as [Hd _].
  rewrite Heq in Hd. by rewrite Ascii.eqb_refl in Hd.
Qed.

Lemma upper_hex_digit_inj (n m : N) :
  (n < 16)%N → (m < 16)%N →
  upper_char (hex_digit n) = upper_char (hex_digit m) → n = m.
Proof.
  intros Hn Hm Heq. pose proof upper_hex_digit_table as Ht.
  rewrite List.forallb_forall in Ht.
  specialize (Ht (N.to_nat n) ltac:(apply List.in_seq; lia)).
  rewrite N2Nat.id in Ht. apply andb_true_iff in Ht as [_ Ht].
  rewrite List.forallb_forall in Ht.
  specialize (Ht (N.to_nat m) ltac:(apply List.in_seq; lia)).
  rewrite N2Nat.id in Ht.
  rewrite Heq, Ascii.eqb_refl in Ht. cbn [implb] in Ht.
  apply Nat.eqb_eq in Ht. lia.
Qed.

Lemma ord_high_digit (c : ascii) : (ord c / 16 < 16)%N.
Proof.
  pose proof (N_ascii_bounded c). unfold ord.
  apply N.Div0.div_lt_upper_bound. lia.
Qed.

Lemma ord_low_digit (c : ascii) : (ord c mod 16 < 16)%N.
Proof. apply N.mod_lt. lia. Qed.

(** The upper-case hexadecimal form determines the byte string. *)
Lemma upper_encode_hex_inj (s1 s2 : string) :
  upper (encode_hex s1) = upper (encode_hex s2) → s1 = s2.
Proof.
  revert s2. induction s1 as [| c1 s1 IH]; intros [| c2 s2]; cbn [encode_hex upper];
    try done.
  intros [= Hhi Hlo Htail].
  apply upper_hex_digit_inj in Hhi; [ | apply ord_high_digit ..].
  apply upper_hex_digit_inj in Hlo; [ | apply ord_low_digit ..].
  f_equal; [ | by apply IH].
  apply ord_inj.
  rewrite (N.div_mod (ord c1) 16), (N.div_mod (ord c2) 16) by lia. by rewrite Hhi, Hlo.
Qed.

Lemma upper_encode_hex_length (s : string) :
  String.length (upper (encode_hex s)) = 2 * String.length s.
Proof.
  induction s as [| c s IH]; [done | ]. cbn [encode_hex upper String.length].
  rewrite IH. lia.
Qed.

(** A range name determines both of its bounds: the hyphen is no
    hexadecimal digit. *)
Lemma format_range_inj (a1 b1 a2 b2 : string) :
  format_range (upper (encode_hex a1)) (upper (encode_hex b1))
    = format_range (upper (encode_hex a2)) (upper (encode_hex b2)) →
  a1 = a2 ∧ b1 = b2.
Proof.
  unfold format_range. revert a2.
  induction a1 as [| c1 a1 IH]; intros [| c2 a2]; cbn [encode_hex upper String.append].
  - intros [= H]. split; [done | by apply upper_encode_hex_inj].
  - intros [= H _]. symmetry in H.
    by apply upper_hex_digit_no_dash in H; [ | apply ord_high_digit].
  - intros [= H _].
    by apply upper_hex_digit_no_dash in H; [ | apply ord_high_digit].
  - intros [= Hhi Hlo Htail].
    destruct (IH _ Htail) as [-> ->]. split; [ | done]. f_equal.
    apply upper_hex_digit_inj in Hhi; [ | apply ord_high_digit ..].
    apply upper_hex_digit_inj in Hlo; [ | apply ord_low_digit ..].
    apply ord_inj.
    rewrite (N.div_mod (ord c1) 16), (N.div_mod (ord c2) 16) by lia. by rewrite Hhi, Hlo.
Qed.

Lemma spec_range_names_length (l : list string) :
  ∀ lo, length (spec_range_names lo l) = length l.
Proof. induction l as [| b l IH]; intros lo; [done | ]. simpl. by rewrite IH. Qed.

Lemma spec_range_names_lookup_0 (l : list string) (lo m : string) :
  l !! 0 = Some m →
  spec_range_names lo l !! 0
    = Some (format_range (upper (encode_hex lo)) (upper (encode_hex m))).
Proof. destruct l as [| b l]; [done | ]. by intros [= ->]. Qed.

Lemma spec_range_names_lookup_S (l : list string) :
  ∀ lo i lo' m,
    l !! i = Some lo' → l !! S i = Some m →
    spec_range_names lo l !! S i
      = Some (format_range (upper (encode_hex lo')) (upper (encode_hex m))).
Proof.
  induction l as [| b l IH]; intros lo i lo' m Hi HS; [done | ].
  cbn [spec_range_names lookup list_lookup] in *. destruct i as [| i].
  - injection Hi as ->. by apply spec_range_names_lookup_0.
  - by eapply IH.
Qed.

Lemma spec_range_names_elem (l : list string) :
  ∀ lo x, x ∈ spec_range_names lo l →
    ∃ lo' b, b ∈ l ∧ x = format_range (upper (encode_hex lo')) (upper (encode_hex b)).
Proof.
  induction l as [| b l IH]; intros lo x Hx; cbn [spec_range_names] in Hx.
  - by apply elem_of_nil in Hx.
  - apply elem_of_cons in Hx as [-> | Hx].
    + exists lo, b. split; [left | done].
    + destruct (IH _ _ Hx) as (lo' & b' & Hb' & ->).
      exists lo', b'. split; [by right | done].
Qed.

Lemma spec_range_names_NoDup (l : list string) :
  NoDup l → ∀ lo, NoDup (spec_range_names lo l).
Proof.
  induction 1 as [| b l Hb Hl IH]; intros lo; cbn [spec_range_names]; constructor.
  - intros Hin. apply spec_range_names_elem in Hin as (lo' & b' & Hb' & Heq).
    apply format_range_inj in Heq as [_ ->]. done.
  - apply IH.
Qed.

(** The names that [_make_shard_names] gives a range-sharded object. *)
Lemma make_shard_names_range (K : keyrange_constants) (self : Keyspace)
    (l : list string) :
  shard_max_keys self = Some l → l ≠ [] →
  _make_shard_names K self = Ok (spec_range_names (MIN_KEY K) l).
Proof.
  intros Hl Hne. unfold _make_shard_names. rewrite Hl.
  destruct l as [| m ms]; [done | ].
  exact (names_loop_spec K (m :: ms) [] []).
Qed.

Lemma Keyspace_init_range_names (K : keyrange_constants) (keyspace_name : string)
    (data : SrvKeyspace) (self : Keyspace) (l : list string) :
  Keyspace_init K keyspace_name data = Ok self →
  shard_max_keys self = Some l →
  shard_names self = spec_range_names (MIN_KEY K) l.
Proof.
  intros Hinit Hl.
  destruct (Keyspace_init_max_keys_shape K _ _ _ _ Hinit Hl) as (_ & _ & m & Hm & _).
  destruct (Keyspace_init_inv K keyspace_name data self Hinit)
    as (_ & _ & _ & _ & _ & _ & _ & _ & _ & _ & _ & _ & Hnames).
  rewrite (make_shard_names_range K self l Hl) in Hnames; [ | by destruct l].
  by injection Hnames.
Qed.

(** ** The names of a constructed Keyspace *)

(** X5: a constructed Keyspace without [shard_max_keys] names its shards by
    their decimal indices: [shard_names[i]] is [str(i)] for every
    [i < shard_count]. *)
Theorem Keyspace_init_flat_names (K : keyrange_constants) (keyspace_name : string)
    (data : SrvKeyspace) (self : Keyspace) :
  Keyspace_init K keyspace_name data = Ok self →
  shard_max_keys self = None →
  ∀ i, i < shard_count self → shard_names self !! i = Some (str_of_nat i).
Proof.
  intros Hinit Hnone i Hi.
  destruct (Keyspace_init_inv K keyspace_name data self Hinit)
    as (_ & _ & _ & _ & _ & _ & _ & _ & _ & _ & _ & _ & Hnames).
  unfold _make_shard_names in Hnames. rewrite Hnone in Hnames.
  injection Hnames as <-.
  change (map str_of_nat ?l) with (str_of_nat <$> l).
  rewrite list_lookup_fmap, lookup_seq_lt by done. done.
Qed.

Lemma Keyspace_init_flat_names_witness :
  shard_names keyspace_no_bounds !! 2 = Some (str_of_nat 2).
Proof.
  apply (Keyspace_init_flat_names spec_keyrange_constants "test_keyspace"
           snapshot_no_bounds keyspace_no_bounds).
  - apply Keyspace_init_examples.
  - reflexivity.
  - simpl. lia.
Defined.

(** X6: a constructed Keyspace with [shard_max_keys] names shard 0 by the
    upper-case hexadecimal form of [MIN_KEY], a hyphen and that of its max
    key, and shard [i + 1] by that of the max key of shard [i], a hyphen and
    that of its own max key: each name starts where the previous one ends. *)
Theorem Keyspace_init_range_names_lookup (K : keyrange_constants)
    (keyspace_name : string) (data : SrvKeyspace) (self : Keyspace)
    (l : list string) :
  Keyspace_init K keyspace_name data = Ok self →
  shard_max_keys self = Some l →
  (∀ m, l !! 0 = Some m →
     shard_names self !! 0
       = Some (format_range (upper (encode_hex (MIN_KEY K))) (upper (encode_hex m))))
  ∧ (∀ i lo m, l !! i = Some lo → l !! S i = Some m →
       shard_names self !! S i
         = Some (format_range (upper (encode_hex lo)) (upper (encode_hex m)))).
Proof.
  intros Hinit Hl. rewrite (Keyspace_init_range_names K _ _ _ _ Hinit Hl). split.
  - intros m. apply spec_range_names_lookup_0.
  - intros i lo m. apply spec_range_names_lookup_S.
Qed.

Lemma Keyspace_init_range_names_lookup_witness :
  shard_names keyspace_open_end !! 0
    = Some (format_range (upper (encode_hex (MIN_KEY spec_keyrange_constants)))
              (upper (encode_hex key_80)))
  ∧ shard_names keyspace_open_end !! 1
    = Some (format_range (upper (encode_hex key_80)) (upper (encode_hex ""))).
Proof.
  destruct (Keyspace_init_range_names_lookup spec_keyrange_constants "test_keyspace"
              snapshot_open_end keyspace_open_end [key_80; ""])
    as [Hfirst Hnext].
  - apply Keyspace_init_examples.
  - reflexivity.
  - split.
    + apply Hfirst. reflexivity.
    + apply (Hnext 0); reflexivity.
Defined.

(** X7: the shard names of a constructed Keyspace are pairwise distinct,
    provided its max keys, when it has them, are pairwise distinct. *)
Theorem Keyspace_init_shard_names_distinct (K : keyrange_constants)
    (keyspace_name : string) (data : SrvKeyspace) (self : Keyspace) :
  Keyspace_init K keyspace_name data = Ok self →
  (∀ l, shard_max_keys self = Some l → NoDup l) →
  NoDup (shard_names self).
Proof.
  intros Hinit Hdistinct.
  destruct (shard_max_keys self) as [l | ] eqn:Hl.
  - rewrite (Keyspace_init_range_names K _ _ _ _ Hinit Hl).
    apply spec_range_names_NoDup. by apply Hdistinct.
  - destruct (Keyspace_init_inv K keyspace_name data self Hinit)
      as (_ & _ & _ & _ & _ & _ & _ & _ & _ & _ & _ & _ & Hnames).
    unfold _make_shard_names in Hnames. rewrite Hl in Hnames.
    injection Hnames as <-.
    change (map str_of_nat ?l) with (str_of_nat <$> l).
    apply NoDup_fmap_2; [ | apply NoDup_seq].
    unfold str_of_nat. apply _.
Qed.

Lemma Keyspace_init_shard_names_distinct_witness :
  NoDup (shard_names keyspace_two).
Proof.
  apply (Keyspace_init_shard_names_distinct spec_keyrange_constants "test_keyspace"
           snapshot_two keyspace_two).
  - apply Keyspace_init_examples.
  - intros l [= <-]. apply NoDup_cons. split.
    + intros Hin. apply list_elem_of_singleton in Hin. discriminate Hin.
    + apply NoDup_singleton.
Defined.

(** ** [pack_keyspace_id] *)

Lemma Ok_inj {A} (a b : A) : Ok a = Ok b → a = b.
Proof. by intros [= ->]. Qed.

Lemma be_bytes_length (n : nat) (k : Z) : String.length (be_bytes n k) = n.
Proof. induction n as [| n IH]; [done | ]. cbn [be_bytes String.length]. by rewrite IH. Qed.

(** The two outcomes of the packing. *)
Lemma pack_keyspace_id_cases (k : Z) :
  match pack_keyspace_id k with
  | Ok pkid => (0 ≤ k < 2 ^ 64)%Z ∧ String.length pkid = 8
  | Raise e => ¬ (0 ≤ k < 2 ^ 64)%Z ∧ exn_cls e = struct_error
  end.
Proof.
  unfold pack_keyspace_id.
  destruct (Z.leb_spec 0 k); destruct (Z.ltb_spec k (2 ^ 64)); cbn [andb].
  - split; [lia | apply be_bytes_length].
  - split; [lia | done].
  - split; [lia | done].
  - split; [lia | done].
Qed.

(** X9: on packed key ids the byte order is the numeric order, and equal
    packed forms come from equal key ids. *)
Theorem pack_keyspace_id_order (k1 k2 : Z) (p1 p2 : string) :
  pack_keyspace_id k1 = Ok p1 →
  pack_keyspace_id k2 = Ok p2 →
  (str_ltb p1 p2 = true ↔ (k1 < k2)%Z) ∧ (p1 = p2 ↔ k1 = k2).
Proof.
  intros H1 H2.
  pose proof (pack_keyspace_id_cases k1) as Hc1. rewrite H1 in Hc1.
  destruct Hc1 as [Hk1 _].
  pose proof (pack_keyspace_id_cases k2) as Hc2. rewrite H2 in Hc2.
  destruct Hc2 as [Hk2 _].
  rewrite (pack_keyspace_id_ok k1 Hk1) in H1. apply Ok_inj in H1. subst p1.
  rewrite (pack_keyspace_id_ok k2 Hk2) in H2. apply Ok_inj in H2. subst p2.
  assert (∀ a b, (0 ≤ a < 2 ^ 64)%Z → (0 ≤ b < 2 ^ 64)%Z → (a < b)%Z →
            str_ltb (be_bytes 8 a) (be_bytes 8 b) = true) as Hlt
    by (intros a b Ha Hb Hab; apply pack_keyspace_id_lt; lia).
  split; split.
  - intros Hp. destruct (Z.lt_trichotomy k1 k2) as [? | [-> | Hgt]]; [done | | ].
    + by rewrite str_ltb_irrefl in Hp.
    + apply (Hlt k2 k1 Hk2 Hk1) in Hgt. by rewrite (str_ltb_asym _ _ Hgt) in Hp.
  - by apply Hlt.
  - intros Hp. destruct (Z.lt_trichotomy k1 k2) as [Hl | [? | Hgt]]; [ | done | ].
    + apply (Hlt k1 k2 Hk1 Hk2) in Hl. by rewrite Hp, str_ltb_irrefl in Hl.
    + apply (Hlt k2 k1 Hk2 Hk1) in Hgt. by rewrite Hp, str_ltb_irrefl in Hgt.
  - by intros ->.
Qed.

Lemma pack_keyspace_id_order_witness :
  (str_ltb (be_bytes 8 255) (be_bytes 8 256) = true ↔ (255 < 256)%Z)
  ∧ (be_bytes 8 255 = be_bytes 8 256 ↔ 255%Z = 256%Z).
Proof.
  apply (pack_keyspace_id_order 255 256 (be_bytes 8 255) (be_bytes 8 256)).
  - reflexivity.
  - reflexivity.
Defined.

(** ** The resolver: what the scan finds *)

Lemma strictly_ascending_lookup (l : list string) :
  strictly_ascending l = true →
  ∀ i j a b, i < j → l !! i = Some a → l !! j = Some b → str_ltb a b = true.
Proof.
  induction l as [| x l IH]; [done | ]. intros Hasc i j a b Hij Hi Hj.
  pose proof (strictly_ascending_head _ _ Hasc) as Hhead.
  pose proof (strictly_ascending_tail _ _ Hasc) as Htail.
  destruct j as [| j]; [lia | ]. cbn [lookup list_lookup] in Hj.
  destruct i as [| i].
  - injection Hi as ->. rewrite Forall_forall in Hhead. apply Hhead.
    by eapply list_elem_of_lookup_2.
  - cbn [lookup list_lookup] in Hi. eapply (IH Htail i j); [lia | done | done].
Qed.

(** The index that the scan leaves: no earlier bound is above the key, and
    either the bound at the index is above it or the list is exhausted. *)
Lemma scan_first_above (p : string) (l : list string) :
  l ≠ [] → ∀ n acc, ∃ j,
    scan p (enumerate_from n l) acc = Some (n + j) ∧
    j < length l ∧
    (∀ j' m, j' < j → l !! j' = Some m → str_ltb p m = false) ∧
    ((∃ m, l !! j = Some m ∧ str_ltb p m = true)
     ∨ (j = length l - 1 ∧ Forall (λ m, str_ltb p m = false) l)).
Proof.
  induction l as [| m l IH]; [done | ]. intros _ n acc.
  cbn [enumerate_from scan length]. destruct (str_ltb p m) eqn:Hm.
  - exists 0. rewrite Nat.add_0_r. split; [done | ]. split; [lia | ].
    split; [intros; lia | ]. left. by exists m.
  - destruct l as [| m' l'].
    + exists 0. rewrite Nat.add_0_r. split; [done | ]. split; [simpl; lia | ].
      split; [intros; lia | ]. right. split; [done | ]. by repeat constructor.
    + destruct (IH ltac:(done) (S n) (Some n)) as (j & Hscan & Hj & Hbefore & Hat).
      exists (S j). replace (n + S j) with (S n + j) by lia.
      split; [done | ]. split; [lia | ]. split.
      * intros [| j'] x Hlt Hx; cbn [lookup list_lookup] in Hx.
        -- by injection Hx as <-.
        -- eapply Hbefore; [ | done]. lia.
      * destruct Hat as [(x & Hx & Hpx) | [-> Hall]].
        -- left. by exists x.
        -- right. split; [cbn [length]; lia | by constructor].
Qed.

(** X10: on a Keyspace with a non-empty [shard_max_keys],
    [keyspace_id_to_shard_index] returns the index of the first max key that
    is strictly above the packed key: no earlier max key is above it, and the
    max key at the index is, unless none is and the index is the last. *)
Theorem keyspace_id_to_shard_index_first_above (self : Keyspace) (l : list string)
    (k : Z) :
  shard_max_keys self = Some l →
  l ≠ [] →
  (0 ≤ k < 2 ^ 64)%Z →
  ∃ i,
    keyspace_id_to_shard_index self k = Ok i ∧
    i < length l ∧
    (∀ j m, j < i → l !! j = Some m → str_ltb (be_bytes 8 k) m = false) ∧
    ((∃ m, l !! i = Some m ∧ str_ltb (be_bytes 8 k) m = true)
     ∨ (i = length l - 1 ∧ Forall (λ m, str_ltb (be_bytes 8 k) m = false) l)).
Proof.
  intros Hl Hne Hk.
  rewrite (keyspace_id_to_shard_index_scan self l k Hl Hne Hk).
  destruct (scan_first_above (be_bytes 8 k) l Hne 0 None) as (i & Hscan & Hrest).
  exists i. unfold enumerate. rewrite Hscan. done.
Qed.

Lemma keyspace_id_to_shard_index_first_above_witness :
  ∃ i,
    keyspace_id_to_shard_index keyspace_two 5 = Ok i ∧
    i < length [key_80; key_ff] ∧
    (∀ j m, j < i → [key_80; key_ff] !! j = Some m → str_ltb (be_bytes 8 5) m = false) ∧
    ((∃ m, [key_80; key_ff] !! i = Some m ∧ str_ltb (be_bytes 8 5) m = true)
     ∨ (i = length [key_80; key_ff] - 1
        ∧ Forall (λ m, str_ltb (be_bytes 8 5) m = false) [key_80; key_ff])).
Proof.
  apply (keyspace_id_to_shard_index_first_above keyspace_two [key_80; key_ff] 5).
  - reflexivity.
  - discriminate.
  - lia.
Defined.

(** X11: with strictly ascending max keys, a key whose packed form is below
    the max key of shard [i] and not below the max key of shard [i - 1] (when
    [i > 0]) resolves to shard [i]: each shard owns the half-open range from
    the previous max key to its own. *)
Theorem keyspace_id_to_shard_index_owner (self : Keyspace) (l : list string)
    (k : Z) (i : nat) (hi : string) :
  shard_max_keys self = Some l →
  strictly_ascending l = true →
  (0 ≤ k < 2 ^ 64)%Z →
  l !! i = Some hi →
  str_ltb (be_bytes 8 k) hi = true →
  (∀ lo, l !! (i - 1) = Some lo → 0 < i → str_ltb (be_bytes 8 k) lo = false) →
  keyspace_id_to_shard_index self k = Ok i.
Proof.
  intros Hl Hasc Hk Hi Hhi Hlo.
  assert (l ≠ []) as Hne by (by destruct l).
  destruct (keyspace_id_to_shard_index_first_above self l k Hl Hne Hk)
    as (i' & -> & Hi' & Hbefore & Hat).
  f_equal. destruct (Nat.lt_trichotomy i' i) as [Hlt | [-> | Hgt]]; [ | done | ].
  - exfalso. destruct Hat as [(m & Hm & Hpm) | [-> _]].
    + destruct (lookup_lt_is_Some_2 l (i - 1)) as [lo Hlo'].
      { apply lookup_lt_Some in Hi. lia. }
      specialize (Hlo lo Hlo' ltac:(lia)).
      destruct (decide (i' = i - 1)) as [-> | Hne'].
      * congruence.
      * pose proof (strictly_ascending_lookup l Hasc i' (i - 1) m lo ltac:(lia) Hm Hlo')
          as Hmlo.
        pose proof (str_ltb_trans _ _ _ Hpm Hmlo). congruence.
    + apply lookup_lt_Some in Hi. lia.
  - exfalso. specialize (Hbefore i hi Hgt Hi). congruence.
Qed.

Lemma keyspace_id_to_shard_index_owner_witness :
  keyspace_id_to_shard_index keyspace_two (2 ^ 63 + 1) = Ok 1.
Proof.
  apply (keyspace_id_to_shard_index_owner keyspace_two [key_80; key_ff]
           (2 ^ 63 + 1) 1 key_ff).
  - reflexivity.
  - vm_compute. reflexivity.
  - lia.
  - reflexivity.
  - vm_compute. reflexivity.
  - intros lo [= <-] _. vm_compute. reflexivity.
Defined.

(** ** The resolver: failures *)

(** X12: [keyspace_id_to_shard_index] fails in two ways only: with
    [struct.error] when the key id is outside [0, 2^64), whatever the
    Keyspace is, and otherwise with the not-range-sharded [ValueError] when
    [shard_max_keys] is absent or empty. In every other case it returns an
    index of [shard_max_keys]. *)
Theorem keyspace_id_to_shard_index_cases (self : Keyspace) (k : Z) :
  match keyspace_id_to_shard_index self k with
  | Ok i =>
      (0 ≤ k < 2 ^ 64)%Z ∧ ∃ l, shard_max_keys self = Some l ∧ i < length l
  | Raise e =>
      (¬ (0 ≤ k < 2 ^ 64)%Z ∧ exn_cls e = struct_error)
      ∨ ((0 ≤ k < 2 ^ 64)%Z
         ∧ (shard_max_keys self = None ∨ shard_max_keys self = Some [])
         ∧ e = Exn ValueError
                 [ArgStr "Keyspace is not range sharded"; ArgStr (name self)])
  end.
Proof.
  pose proof (pack_keyspace_id_cases k) as Hpack.
  unfold keyspace_id_to_shard_index.
  destruct (pack_keyspace_id k) as [pkid | e]; cbn [mbind result_bind].
  - destruct Hpack as [Hk _].
    destruct (shard_max_keys self) as [[| m ms] | ] eqn:Hl.
    + right. split; [done | ]. split; [by right | done].
    + destruct (scan_range pkid (m :: ms) ltac:(done) 0 None) as (i & Hi & Hr).
      unfold enumerate. rewrite Hi. cbn [return_shard_index].
      split; [done | ]. exists (m :: ms). split; [done | lia].
    + right. split; [done | ]. split; [by left | done].
  - left. exact Hpack.
Qed.





(** X15: for a tablet type whose partition has the max keys of the
    top-level shards, the two resolvers agree on every integer, failures
    included. *)
Theorem keyspace_id_to_shard_index_for_db_type_agrees (self : Keyspace)
    (db_type : string) (k : Z) :
  shard_max_keys self = Some (get_shard_max_keys self db_type) →
  keyspace_id_to_shard_index_for_db_type self k db_type
    = keyspace_id_to_shard_index self k.
Proof.
  intros Hsame. unfold keyspace_id_to_shard_index_for_db_type, keyspace_id_to_shard_index.
  rewrite Hsame. by destruct (get_shard_max_keys self db_type).
Qed.

Lemma keyspace_id_to_shard_index_for_db_type_agrees_witness :
  keyspace_id_to_shard_index_for_db_type keyspace_two (2 ^ 63) "replica"
    = keyspace_id_to_shard_index keyspace_two (2 ^ 63).
Proof.
  apply (keyspace_id_to_shard_index_for_db_type_agrees keyspace_two "replica" (2 ^ 63)).
  vm_compute. reflexivity.
Defined.

(** ** The constructor and the resolver together *)

(** X16: on a constructed Keyspace, every index that
    [keyspace_id_to_shard_index] returns is below [shard_count] and
    addresses a shard name. *)
Theorem resolved_index_has_name (K : keyrange_constants) (keyspace_name : string)
    (data : SrvKeyspace) (self : Keyspace) (k : Z) (i : nat) :
  Keyspace_init K keyspace_name data = Ok self →
  keyspace_id_to_shard_index self k = Ok i →
  i < shard_count self ∧ is_Some (shard_names self !! i).
Proof.
  intros Hinit Hidx.
  pose proof (keyspace_id_to_shard_index_cases self k) as Hc. rewrite Hidx in Hc.
  destruct Hc as (_ & l & Hl & Hi).
  destruct (Keyspace_init_max_keys_shape K _ _ _ _ Hinit Hl) as (Hlen & _).
  split; [lia | ]. apply lookup_lt_is_Some_2.
  rewrite (Keyspace_init_shard_names_length K _ _ _ Hinit). lia.
Qed.

Lemma resolved_index_has_name_witness :
  1 < shard_count keyspace_two ∧ is_Some (shard_names keyspace_two !! 1).
Proof.
  apply (resolved_index_has_name spec_keyrange_constants "test_keyspace" snapshot_two
           keyspace_two (2 ^ 63) 1).
  - apply Keyspace_init_examples.
  - vm_compute. reflexivity.
Defined.

(** X17: a Keyspace constructed from a snapshot of fewer than two shards, or
    whose first shard has an empty upper bound, is not range-sharded:
    [keyspace_id_to_shard_index] raises the not-range-sharded [ValueError]
    with the caller's keyspace name for every key id in [0, 2^64). *)
Theorem unsharded_keyspace_never_resolves (K : keyrange_constants)
    (keyspace_name : string) (data : SrvKeyspace) (self : Keyspace)
    (shards : list SrvShard) (k : Z) :
  Keyspace_init K keyspace_name data = Ok self →
  Shards data = Some shards →
  length shards < 2 ∨ (shard_end <$> shards !! 0) = Some "" →
  (0 ≤ k < 2 ^ 64)%Z →
  keyspace_id_to_shard_index self k
    = Raise (Exn ValueError
               [ArgStr "Keyspace is not range sharded"; ArgStr keyspace_name]).
Proof.
  intros Hinit Hsh Hcond Hk.
  destruct (Keyspace_init_inv K keyspace_name data self Hinit)
    as (_ & shards' & _ & Hsh' & Hname & _ & _ & _ & _ & _ & _ & Hsmk & _).
  rewrite Hsh in Hsh'. injection Hsh' as <-.
  assert (shard_max_keys self = None) as Hnone.
  { rewrite Hsmk. destruct Hcond as [Hlen | Hfirst].
    - destruct (Nat.ltb_spec 1 (length shards)); [lia | done].
    - unfold first_end_nonempty. destruct (shards !! 0) as [s0 | ]; [ | by rewrite andb_false_r].
      injection Hfirst as ->. by rewrite andb_false_r. }
  unfold keyspace_id_to_shard_index.
  by rewrite (pack_keyspace_id_ok k Hk), Hnone, <- Hname.
Qed.

Lemma unsharded_keyspace_never_resolves_witness :
  keyspace_id_to_shard_index keyspace_first_empty 42
    = Raise (Exn ValueError
               [ArgStr "Keyspace is not range sharded"; ArgStr "test_keyspace"]).
Proof.
  apply (unsharded_keyspace_never_resolves spec_keyrange_constants "test_keyspace"
           snapshot_first_empty keyspace_first_empty (shards_from "" [""; key_ff]) 42).
  - apply Keyspace_init_examples.
  - reflexivity.
  - right. reflexivity.
  - lia.
Defined.

(** ** [read_keyspace]: what a caller gets *)

(** X18: whatever the topology client does, an exception that comes out of
    [read_keyspace] is an [OperationalError], unless the client raised
    something outside the [Exception] hierarchy, which passes through as it
    is. *)
Theorem read_keyspace_raises_OperationalError (K : keyrange_constants)
    (topo_client : topo_client_t) (keyspace_name : string) (e : exn) :
  read_keyspace K topo_client keyspace_name = Raise e →
  isinstance_OperationalError e = true
  ∨ (isinstance_Exception e = false ∧ topo_client "local" keyspace_name = Raise e).
Proof.
  unfold read_keyspace, read_keyspace_try.
  destruct (topo_client "local" keyspace_name) as [[d | ] | e0] eqn:Htopo;
    cbn [mbind result_bind].
  - destruct (dict_is_empty d).
    + intros [= <-]. by left.
    + pose proof (Keyspace_init_cases K keyspace_name d) as Hc.
      destruct (Keyspace_init K keyspace_name d) as [ks | e1]; [done | ].
      unfold isinstance_OperationalError, isinstance_Exception. rewrite Hc.
      intros [= <-]. by left.
  - intros [= <-]. by left.
  - destruct (isinstance_OperationalError e0) eqn:Hop.
    + intros [= <-]. by left.
    + destruct (isinstance_Exception e0) eqn:Hexc.
      * intros [= <-]. by left.
      * intros [= <-]. by right.
Qed.

Lemma read_keyspace_raises_OperationalError_witness :
  isinstance_OperationalError
    (Exn OperationalError
       [ArgStr "invalid keyspace"; ArgStr "test_keyspace"; ArgExn topo_io_error]) = true
  ∨ (isinstance_Exception
       (Exn OperationalError
          [ArgStr "invalid keyspace"; ArgStr "test_keyspace"; ArgExn topo_io_error])
       = false
     ∧ topo_raising topo_io_error "local" "test_keyspace"
       = Raise (Exn OperationalError
                  [ArgStr "invalid keyspace"; ArgStr "test_keyspace";
                   ArgExn topo_io_error])).
Proof.
  apply (read_keyspace_raises_OperationalError spec_keyrange_constants
           (topo_raising topo_io_error) "test_keyspace").
  reflexivity.
Defined.

(** X19: a non-empty snapshot without ['TabletTypes'] makes [read_keyspace]
    raise [OperationalError('invalid keyspace', name, KeyError('TabletTypes'))],
    and one with it but without ['Shards'] the same with
    [KeyError('Shards')]. *)
Theorem read_keyspace_malformed_snapshot (K : keyrange_constants)
    (topo_client : topo_client_t) (keyspace_name : string) (data : SrvKeyspace) :
  topo_client "local" keyspace_name = Ok (Some data) →
  dict_is_empty data = false →
  (TabletTypes data = None →
   read_keyspace K topo_client keyspace_name
     = Raise (Exn OperationalError
                [ArgStr "invalid keyspace"; ArgStr keyspace_name;
                 ArgExn (Exn KeyError [ArgStr "TabletTypes"])]))
  ∧ (is_Some (TabletTypes data) → Shards data = None →
     read_keyspace K topo_client keyspace_name
       = Raise (Exn OperationalError
                  [ArgStr "invalid keyspace"; ArgStr keyspace_name;
                   ArgExn (Exn KeyError [ArgStr "Shards"])])).
Proof.
  intros Htopo Hne. unfold read_keyspace, read_keyspace_try.
  rewrite Htopo. cbn [mbind result_bind]. rewrite Hne.
  split.
  - intros Htt. unfold Keyspace_init. by rewrite Htt.
  - intros [tts Htt] Hsh. unfold Keyspace_init. by rewrite Htt, Hsh.
Qed.

(** X20: [read_keyspace] returns a Keyspace only when the topology client
    returned a non-empty snapshot for the cell ['local'] that the
    constructor accepts; the Keyspace is the constructor's and bears the
    requested name. *)
Theorem read_keyspace_returns (K : keyrange_constants) (topo_client : topo_client_t)
    (keyspace_name : string) (keyspace : Keyspace) :
  read_keyspace K topo_client keyspace_name = Ok keyspace →
  name keyspace = keyspace_name ∧
  ∃ data,
    topo_client "local" keyspace_name = Ok (Some data) ∧
    dict_is_empty data = false ∧
    Keyspace_init K keyspace_name data = Ok keyspace.
Proof.
  unfold read_keyspace, read_keyspace_try.
  destruct (topo_client "local" keyspace_name) as [[d | ] | e0] eqn:Htopo;
    cbn [mbind result_bind].
  - destruct (dict_is_empty d) eqn:Hd; [done | ].
    destruct (Keyspace_init K keyspace_name d) as [ks | e1] eqn:Hinit.
    + intros [= <-]. split.
      * by destruct (Keyspace_init_inv K _ _ _ Hinit) as (_ & _ & _ & _ & Hn & _).
      * by exists d.
    + by repeat case_match.
  - done.
  - by repeat case_match.
Qed.

Lemma read_keyspace_malformed_snapshot_witness :
  read_keyspace spec_keyrange_constants
    (topo_returning (Some snapshot_no_tablet_types)) "test_keyspace"
    = Raise (Exn OperationalError
               [ArgStr "invalid keyspace"; ArgStr "test_keyspace";
                ArgExn (Exn KeyError [ArgStr "TabletTypes"])]).
Proof.
  destruct (read_keyspace_malformed_snapshot spec_keyrange_constants
              (topo_returning (Some snapshot_no_tablet_types)) "test_keyspace"
              snapshot_no_tablet_types)
    as [Hmissing _].
  - reflexivity.
  - reflexivity.
  - apply Hmissing. reflexivity.
Defined.

Lemma read_keyspace_returns_witness :
  name keyspace_two = "test_keyspace" ∧
  ∃ data,
    topo_returning (Some snapshot_two) "local" "test_keyspace" = Ok (Some data) ∧
    dict_is_empty data = false ∧
    Keyspace_init spec_keyrange_constants "test_keyspace" data = Ok keyspace_two.
Proof.
  apply (read_keyspace_returns spec_keyrange_constants
           (topo_returning (Some snapshot_two)) "test_keyspace" keyspace_two).
  vm_compute. reflexivity.
Defined.

(** ** The names of the two-shard keyspace *)

Lemma upper_encode_hex_key_80 :
  upper (encode_hex (be_bytes 8 (2 ^ 63))) = "8000000000000000".
Proof. vm_compute. reflexivity. Qed.

(** C6 (as amended): a snapshot of two shards whose upper bounds are the
    packed 0x8000000000000000 and the maximum-key sentinel is accepted and
    range-sharded, and its shard names are the upper-case hexadecimal form of
    the minimum-key sentinel followed by "-8000000000000000", and
    "8000000000000000-" followed by that of the maximum-key sentinel. With
    the minimum-key sentinel the empty string and the maximum-key sentinel
    eight 0xFF bytes, they are "-8000000000000000" and
    "8000000000000000-FFFFFFFFFFFFFFFF". *)
Theorem two_shard_names_of_sentinels (K : keyrange_constants) (keyspace_name : string)
    (data : SrvKeyspace) (tablet_types : list string) (shards : list SrvShard) :
  TabletTypes data = Some tablet_types →
  Shards data = Some shards →
  map shard_end shards = [be_bytes 8 (2 ^ 63); MAX_KEY K] →
  ∃ self,
    Keyspace_init K keyspace_name data = Ok self ∧
    shard_max_keys self = Some [be_bytes 8 (2 ^ 63); MAX_KEY K] ∧
    shard_names self =
      [upper (encode_hex (MIN_KEY K)) +:+ "-8000000000000000";
       "8000000000000000-" +:+ upper (encode_hex (MAX_KEY K))] ∧
    (MIN_KEY K = "" → MAX_KEY K = be_bytes 8 (2 ^ 64 - 1) →
     shard_names self = ["-8000000000000000"; "8000000000000000-FFFFFFFFFFFFFFFF"]).
Proof.
  intros Htt Hsh Hends.
  destruct (Keyspace_init_unfold K keyspace_name data _ _ Htt Hsh) as (names & _ & Hinit).
  eexists. split; [exact Hinit | ].
  assert ((1 <? length shards)%nat && first_end_nonempty shards = true) as Htrigger.
  { destruct shards as [| s1 [| s2 [| s3 shards]]]; try discriminate Hends.
    apply (f_equal (λ l, l !! 0)) in Hends. cbn [map lookup list_lookup] in Hends.
    apply (inj Some) in Hends.
    unfold first_end_nonempty. cbn [length Nat.ltb Nat.leb andb lookup list_lookup].
    by rewrite Hends. }
  pose proof (Keyspace_init_range_names K _ _ _ [be_bytes 8 (2 ^ 63); MAX_KEY K] Hinit)
    as Hnames.
  cbn [shard_max_keys shard_names] in Hnames |- *.
  rewrite Htrigger, Hends in Hnames |- *. specialize (Hnames eq_refl).
  assert (names =
            [upper (encode_hex (MIN_KEY K)) +:+ "-8000000000000000";
             "8000000000000000-" +:+ upper (encode_hex (MAX_KEY K))]) as ->.
  { rewrite Hnames. cbn [spec_range_names]. unfold format_range.
    rewrite upper_encode_hex_key_80. reflexivity. }
  split; [done | ]. split; [done | ].
  intros -> ->. vm_compute. reflexivity.
Qed.

(** The constructor on [snapshot_two] with the empty minimum-key sentinel. *)
Lemma two_shard_names_of_sentinels_witness :
  ∃ self,
    Keyspace_init empty_prefix_keyrange_constants "test_keyspace" snapshot_two = Ok self ∧
    shard_max_keys self
      = Some [be_bytes 8 (2 ^ 63); MAX_KEY empty_prefix_keyrange_constants] ∧
    shard_names self =
      [upper (encode_hex (MIN_KEY empty_prefix_keyrange_constants))
         +:+ "-8000000000000000";
       "8000000000000000-"
         +:+ upper (encode_hex (MAX_KEY empty_prefix_keyrange_constants))] ∧
    (MIN_KEY empty_prefix_keyrange_constants = "" →
     MAX_KEY empty_prefix_keyrange_constants = be_bytes 8 (2 ^ 64 - 1) →
     shard_names self = ["-8000000000000000"; "8000000000000000-FFFFFFFFFFFFFFFF"]).
Proof.
  apply (two_shard_names_of_sentinels empty_prefix_keyrange_constants "test_keyspace"
           snapshot_two ["master"; "replica"; "rdonly"]
           (shards_from "" [key_80; key_ff])).
  - reflexivity.
  - reflexivity.
  - reflexivity.
Defined.

(** With the minimum-key sentinel the empty-prefix marker, the two-shard
    keyspace split at 0x8000000000000000 and closed by the maximum-key
    sentinel is accepted, and its first name is "-8000000000000000", not
    "0000000000000000-8000000000000000". *)
Lemma two_shard_names_zero_prefix_counterexample :
  Keyspace_init empty_prefix_keyrange_constants "test_keyspace" snapshot_two
    = Ok keyspace_two_empty_prefix
  ∧ shard_max_keys keyspace_two_empty_prefix
    = Some [be_bytes 8 (2 ^ 63); MAX_KEY empty_prefix_keyrange_constants]
  ∧ shard_names keyspace_two_empty_prefix
    = ["-8000000000000000"; "8000000000000000-FFFFFFFFFFFFFFFF"]
  ∧ shard_names keyspace_two_empty_prefix
    ≠ ["0000000000000000-8000000000000000"; "8000000000000000-FFFFFFFFFFFFFFFF"].
Proof.
  split; [vm_compute; reflexivity | ].
  split; [reflexivity | ]. split; [reflexivity | ]. discriminate.
Qed.
